(** * PiCarX navigation core: a shallow embedding of main.py and
      src/control/navigator.py, and the properties of its decision logic.

    The robot code talks to hardware (ultrasonic sensor, grayscale line
    sensor, steering servo, motors).  Every such call is recorded in a trace,
    and what a call answers (a sensor value, or an exception) is fixed by an
    environment indexed by the position of the call in the trace.  Python
    exceptions are an explicit outcome, [try]/[except Exception] is a
    combinator, and the only unbounded loop (the polling loop of outHandle)
    takes fuel. *)

From Stdlib Require Import String.
From Stdlib Require Import ZArith QArith Qround Qabs List Bool Lia Lqa.
Import ListNotations.

Local Open Scope Z_scope.

(** ** Outcomes and the trace monad *)

(** The exceptions the modelled code can meet.  All of them are subclasses of
    Exception, so a handler [except Exception] catches each of them. *)
Inductive exn : Type :=
| IndexError
| KeyError
| TypeError
| DeviceError
| QueueEmpty.

Inductive outcome (A : Type) : Type :=
| Returns (a : A)
| Raises (e : exn)
| OutOfFuel.

Arguments Returns {A} a.
Arguments Raises {A} e.
Arguments OutOfFuel {A}.

Section StateMonad.

Context {S : Type}.

(** A computation runs on a state (the calls made so far, and for the
    navigator the object's attributes) and gives an outcome and the state
    it leaves.  The state survives an exception. *)
Definition M (A : Type) : Type := S -> outcome A * S.

Definition ret {A} (a : A) : M A := fun s => (Returns a, s).

Definition bind {A B} (c : M A) (k : A -> M B) : M B :=
  fun s =>
    match c s with
    | (Returns a, s') => k a s'
    | (Raises e, s') => (Raises e, s')
    | (OutOfFuel, s') => (OutOfFuel, s')
    end.

Definition raise {A} (e : exn) : M A := fun s => (Raises e, s).

Definition out_of_fuel {A} : M A := fun s => (OutOfFuel, s).

(** [try: body except Exception as e: handler e].  What the body did
    before it raised stays done. *)
Definition try_except {A} (body : M A) (handler : exn -> M A) : M A :=
  fun s =>
    match body s with
    | (Raises e, s') => handler e s'
    | r => r
    end.

(** A pure computation that may raise, run inside the monad. *)
Definition lift {A} (o : outcome A) : M A := fun s => (o, s).

End StateMonad.

Arguments M S A : clear implicits.

(** What a computation never does, whatever the state it starts from:
    [returns c] says that it ends normally, [halts c] that it does not run
    out of fuel, and [keeps R c] that the state it leaves is related by [R]
    to the state it found. *)
Definition returns {S A : Type} (c : M S A) : Prop :=
  forall s, exists a, fst (c s) = Returns a.

Definition halts {S A : Type} (c : M S A) : Prop :=
  forall s, fst (c s) <> OutOfFuel.

Definition keeps {S A : Type} (R : S -> S -> Prop) (c : M S A) : Prop :=
  forall s, R s (snd (c s)).

Declare Scope monad_scope.
Delimit Scope monad_scope with monad.
Notation "x <- c ;; k" := (bind c (fun x => k))
  (at level 61, c at next level, right associativity) : monad_scope.
Notation "c ;; k" := (bind c (fun _ => k))
  (at level 61, right associativity) : monad_scope.
Local Open Scope monad_scope.

(** ** Python values used by the line follower *)

(** A line state is a Python string, or None when get_status falls off the
    end of its if/elif chain. *)
Definition pystate : Type := option string.

Definition pystate_eqb (a b : pystate) : bool :=
  match a, b with
  | Some x, Some y => String.eqb x y
  | None, None => true
  | _, _ => false
  end.

Fixpoint list_Z_eqb (l1 l2 : list Z) : bool :=
  match l1, l2 with
  | [], [] => true
  | x :: l1', y :: l2' => (x =? y) && list_Z_eqb l1' l2'
  | _, _ => false
  end.

(** Subscript of a Python list by a non-negative index. *)
Definition subscript (l : list Z) (i : nat) : outcome Z :=
  match nth_error l i with
  | Some v => Returns v
  | None => Raises IndexError
  end.

(** ** Rounding of the distance: [round(x, 2)]

    A finite Python float is a rational number, [round(x, 2)] is the multiple
    of 1/100 nearest to it, ties going to the even multiple, and the
    comparisons of the result with the integer thresholds 0, 20, 40 and 1000
    are decided by that multiple.  Distances are therefore rationals. *)
Definition round_half_even (x : Q) : Z :=
  let f := Qfloor x in
  match Qcompare (x - inject_Z f) (1 # 2) with
  | Lt => f
  | Gt => f + 1
  | Eq => if Z.even f then f else f + 1
  end.

Definition round2 (x : Q) : Q := Qmake (round_half_even (x * 100)) 100.

Definition Qltb (x y : Q) : bool := negb (Qle_bool y x).

(** Python's [min(a, b)] and [max(a, b)]: the first argument unless the
    second is strictly smaller, respectively larger. *)
Definition py_min (a b : Q) : Q := if Qltb b a then b else a.
Definition py_max (a b : Q) : Q := if Qltb a b then b else a.

(** ** main.py *)

Module Main.

(** Constants of main.py. *)
Definition LINE_TRACK_SPEED : Z := 10.
Definition LINE_TRACK_ANGLE_OFFSET : Z := 20.
Definition AVOID_OBSTACLES_SPEED : Z := 40.
Definition SafeDistance : Z := 40.
Definition DangerDistance : Z := 20.

(** The calls main.py makes on the Picarx object, and time.sleep. *)
Inductive px_call : Type :=
| ultrasonic_read
| get_grayscale_data
| set_dir_servo_angle (angle : Z)
| forward (speed : Z)
| backward (speed : Z)
| sleep (seconds : Q).

(** What the hardware answers.  [px_raises i] tells whether the call made
    at position [i] of the trace raises; [px_ultrasonic i] and
    [px_grayscale i] are the values a sensor read at position [i] returns;
    [px_get_line_status] is the library's conversion of grayscale data to
    the three-bit line status. *)
Record PicarxEnv : Type := {
  px_raises : nat -> bool;
  px_ultrasonic : nat -> Q;
  px_grayscale : nat -> list Z;
  px_get_line_status : list Z -> list Z
}.

(** The state of a run of main.py's functions is the trace of calls. *)
Definition trace : Type := list px_call.

Section WithPicarx.

Variable px : PicarxEnv.

(** A call with no result: appended to the trace, it raises when the
    environment says that the call at this position does. *)
Definition px_do (c : px_call) : M trace unit :=
  fun tr =>
    (if px_raises px (length tr) then Raises DeviceError else Returns tt,
     tr ++ [c]).

(** A sensor read: the value the environment holds for its position. *)
Definition px_read {A} (value : nat -> A) (c : px_call) : M trace A :=
  fun tr =>
    (if px_raises px (length tr) then Raises DeviceError
     else Returns (value (length tr)),
     tr ++ [c]).

(** time.sleep: recorded, never raises. *)
Definition time_sleep (seconds : Q) : M trace unit :=
  fun tr => (Returns tt, tr ++ [sleep seconds]).

(** def get_status(px, val_list) *)
Definition get_status (val_list : list Z) : M trace pystate :=
  let _state := px_get_line_status px val_list in
  if list_Z_eqb _state [0; 0; 0] then ret (Some "stop"%string)
  else
    s1 <- lift (subscript _state 1) ;;
    if s1 =? 1 then ret (Some "forward"%string)
    else
      s0 <- lift (subscript _state 0) ;;
      if s0 =? 1 then ret (Some "right"%string)
      else
        s2 <- lift (subscript _state 2) ;;
        if s2 =? 1 then ret (Some "left"%string)
        else ret None.

(** The [while True] loop of outHandle: one sample per iteration, left
    by [break] when the sample's state differs from [last_line_state]. *)
Fixpoint outHandle_loop (fuel : nat) (last_line_state : pystate)
    : M trace unit :=
  match fuel with
  | O => out_of_fuel
  | S fuel' =>
      gm_val_list <- px_read (px_grayscale px) get_grayscale_data ;;
      gm_state <- get_status gm_val_list ;;
      if negb (pystate_eqb gm_state last_line_state) then ret tt
      else outHandle_loop fuel' last_line_state
  end.

(** The two branches before the loop of outHandle. *)
Definition outHandle_steer (last_line_state : pystate) : M trace unit :=
  if pystate_eqb last_line_state (Some "left"%string) then
    px_do (set_dir_servo_angle (-30)) ;;
    px_do (backward 10)
  else if pystate_eqb last_line_state (Some "right"%string) then
    px_do (set_dir_servo_angle 30) ;;
    px_do (backward 10)
  else ret tt.

(** def outHandle(px, last_line_state) *)
Definition outHandle (fuel : nat) (last_line_state : pystate)
    : M trace unit :=
  outHandle_steer last_line_state ;;
  outHandle_loop fuel last_line_state ;;
  time_sleep (1 # 1000).

(** def avoid_obstacles(px) *)
Definition avoid_obstacles : M trace Q :=
  try_except
    (reading <- px_read (px_ultrasonic px) ultrasonic_read ;;
     let distance := round2 reading in
     if Qltb distance 0 || Qltb (inject_Z 1000) distance then
       ret (inject_Z (SafeDistance + 1))
     else
       (if Qle_bool (inject_Z SafeDistance) distance then
          px_do (set_dir_servo_angle 0) ;;
          px_do (forward AVOID_OBSTACLES_SPEED)
        else if Qle_bool (inject_Z DangerDistance) distance then
          px_do (set_dir_servo_angle 30) ;;
          px_do (forward AVOID_OBSTACLES_SPEED) ;;
          time_sleep (1 # 10)
        else
          px_do (set_dir_servo_angle (-30)) ;;
          px_do (backward AVOID_OBSTACLES_SPEED) ;;
          time_sleep (1 # 2)) ;;
       ret distance)
    (fun _ => ret (inject_Z (SafeDistance + 1))).

(** The line-following part of line_track, below the obstacle check. *)
Definition line_track_follow (fuel : nat) (last_line_state : pystate)
    : M trace pystate :=
  gm_val_list <- px_read (px_grayscale px) get_grayscale_data ;;
  gm_state <- get_status gm_val_list ;;
  if negb (pystate_eqb gm_state (Some "stop"%string)) then
    let last_line_state := gm_state in
    (if pystate_eqb gm_state (Some "forward"%string) then
       px_do (set_dir_servo_angle 0) ;;
       px_do (forward LINE_TRACK_SPEED)
     else if pystate_eqb gm_state (Some "left"%string) then
       px_do (set_dir_servo_angle LINE_TRACK_ANGLE_OFFSET) ;;
       px_do (forward LINE_TRACK_SPEED)
     else if pystate_eqb gm_state (Some "right"%string) then
       px_do (set_dir_servo_angle (- LINE_TRACK_ANGLE_OFFSET)) ;;
       px_do (forward LINE_TRACK_SPEED)
     else ret tt) ;;
    ret last_line_state
  else
    outHandle fuel last_line_state ;;
    ret last_line_state.

(** def line_track(px, last_line_state) *)
Definition line_track (fuel : nat) (last_line_state : pystate)
    : M trace pystate :=
  distance <- avoid_obstacles ;;
  if Qltb distance (inject_Z SafeDistance) then ret last_line_state
  else line_track_follow fuel last_line_state.

(** The state get_status gives to the sample read at position [i] of
    the trace. *)
Definition sample_state (i : nat) : outcome pystate :=
  fst (get_status (px_grayscale px i) []).

End WithPicarx.

(** The calls outHandle makes before its loop. *)
Definition steer_calls (last_line_state : pystate) : trace :=
  if pystate_eqb last_line_state (Some "left"%string) then
    [set_dir_servo_angle (-30); backward 10]
  else if pystate_eqb last_line_state (Some "right"%string) then
    [set_dir_servo_angle 30; backward 10]
  else [].

(** The calls avoid_obstacles makes after a valid reading, by the rounded
    distance. *)
Definition band_calls (distance : Q) : trace :=
  if Qle_bool (inject_Z SafeDistance) distance then
    [set_dir_servo_angle 0; forward AVOID_OBSTACLES_SPEED]
  else if Qle_bool (inject_Z DangerDistance) distance then
    [set_dir_servo_angle 30; forward AVOID_OBSTACLES_SPEED; sleep (1 # 10)]
  else
    [set_dir_servo_angle (-30); backward AVOID_OBSTACLES_SPEED;
     sleep (1 # 2)].

(** The steering angle line_track applies in a state where the line is
    seen. *)
Definition line_angle (st : string) : Z :=
  if String.eqb st "forward" then 0
  else if String.eqb st "left" then LINE_TRACK_ANGLE_OFFSET
  else - LINE_TRACK_ANGLE_OFFSET.

(** A motor directive is a call that sets the wheels in motion. *)
Definition is_drive (c : px_call) : bool :=
  match c with
  | forward _ | backward _ => true
  | _ => false
  end.

(** The calls of the Safe band: what a tick may issue without performing
    a Caution or Danger maneuver. *)
Definition safe_call (c : px_call) : Prop :=
  c = ultrasonic_read \/ c = set_dir_servo_angle 0 \/
  c = forward AVOID_OBSTACLES_SPEED.

(** No call of the environment raises. *)
Definition reliable (px : PicarxEnv) : Prop :=
  forall i, px_raises px i = false.

End Main.

(** ** src/control/navigator.py *)

Module Nav.

Local Open Scope Q_scope.

(** class NavigationState(Enum) *)
Inductive NavigationState : Type :=
| SUIVRE_LIGNE
| TRAITER_PANNEAU
| ATTENTE_COMMANDE
| ARRET.

Definition NavigationState_eq_dec (a b : NavigationState)
    : {a = b} + {a <> b}.
Proof. decide equality. Defined.

Definition NavigationState_eqb (a b : NavigationState) : bool :=
  match a, b with
  | SUIVRE_LIGNE, SUIVRE_LIGNE => true
  | TRAITER_PANNEAU, TRAITER_PANNEAU => true
  | ATTENTE_COMMANDE, ATTENTE_COMMANDE => true
  | ARRET, ARRET => true
  | _, _ => false
  end.

(** The calls the navigator makes on its motor controller, and
    time.sleep. *)
Inductive mc_call : Type :=
| set_speed (speed : Q)
| set_steering (angle : Q)
| stop
| sleep (seconds : Q).

(** The dict [line_info].  A key that is absent is [None]; the value of
    'position' may itself be None, as the line detector returns it when no
    line is seen. *)
Record LineInfo : Type := {
  detected : option bool;
  position : option (option (Z * Z))
}.

(** The dict of one detected sign; only the key 'class' is read. *)
Record SignInfo : Type := {
  sign_class : option string
}.

(** The dict [vision_data], when it is not empty. *)
Record VisionData : Type := {
  line_info : option LineInfo;
  signs : option (list SignInfo)
}.

(** The dict [command], when it is not empty. *)
Record Command : Type := {
  cmd_type : option string;
  cmd_value : option Q
}.

(** The attributes of a Navigator. *)
Record Navigator : Type := {
  base_speed : Q;
  min_speed : Q;
  max_steering : Q;
  state : NavigationState;
  last_line_pos : option (Z * Z)
}.

(** Navigator.__init__ *)
Definition init : Navigator := {|
  base_speed := 30;
  min_speed := 15;
  max_steering := 30;
  state := SUIVRE_LIGNE;
  last_line_pos := None
|}.

(** The navigator with its attribute [state] set to [s]. *)
Definition with_state (n : Navigator) (s : NavigationState) : Navigator :=
  {| base_speed := base_speed n;
     min_speed := min_speed n;
     max_steering := max_steering n;
     state := s;
     last_line_pos := last_line_pos n |}.

(** The state of a run: the object, the calls made on the motor
    controller, and the values assigned to [self.state] so far (this last
    list is only observed by the theorems). *)
Record world : Type := {
  self : Navigator;
  calls : list mc_call;
  assigned : list NavigationState
}.

Section WithMotorController.

(** [mc_raises i]: the call made at position [i] of [calls] raises. *)
Variable mc_raises : nat -> bool.

Definition mc_do (c : mc_call) : M world unit :=
  fun w =>
    (if mc_raises (length (calls w)) then Raises DeviceError
     else Returns tt,
     {| self := self w; calls := calls w ++ [c];
        assigned := assigned w |}).

Definition time_sleep (seconds : Q) : M world unit :=
  fun w =>
    (Returns tt,
     {| self := self w; calls := calls w ++ [sleep seconds];
        assigned := assigned w |}).

Definition get_self : M world Navigator :=
  fun w => (Returns (self w), w).

(** self.state = s *)
Definition set_state (s : NavigationState) : M world unit :=
  fun w =>
    (Returns tt,
     {| self := with_state (self w) s;
        calls := calls w;
        assigned := assigned w ++ [s] |}).

(** self.last_line_pos = p *)
Definition set_last_line_pos (p : Z * Z) : M world unit :=
  fun w =>
    (Returns tt,
     {| self := {| base_speed := base_speed (self w);
                   min_speed := min_speed (self w);
                   max_steering := max_steering (self w);
                   state := state (self w);
                   last_line_pos := Some p |};
        calls := calls w;
        assigned := assigned w |}).

(** d[key] on a key that may be absent. *)
Definition getitem {A} (v : option A) : M world A :=
  match v with
  | Some a => ret a
  | None => raise KeyError
  end.

(** Subscripting a position that may be None: [None[0]] raises. *)
Definition subscriptable (p : option (Z * Z)) : M world (Z * Z) :=
  match p with
  | Some xy => ret xy
  | None => raise TypeError
  end.

(** def follow_line(self, line_info).  The arithmetic of the branch that
    sees a line is that of the rationals. *)
Definition follow_line (line_info : LineInfo) : M world unit :=
  try_except
    (if negb (match detected line_info with
              | Some b => b
              | None => false
              end) then
       me <- get_self ;;
       match last_line_pos me with
       | Some _ => mc_do (set_speed (min_speed me))
       | None => mc_do stop
       end
     else
       position <- getitem (position line_info) ;;
       position <- subscriptable position ;;
       let center_x := fst position in
       me <- get_self ;;
       let frame_width : Q := 640 in
       let error :=
         (inject_Z center_x - frame_width / 2) / (frame_width / 2) in
       let steering_angle := - error * max_steering me in
       mc_do (set_steering steering_angle) ;;
       let speed := base_speed me * (1 - Qabs error) in
       let speed := if Qltb speed (min_speed me) then min_speed me
                    else speed in
       mc_do (set_speed speed) ;;
       set_last_line_pos position)
    (fun _ => mc_do stop).

(** def handle_stop_sign(self) *)
Definition handle_stop_sign : M world unit :=
  try_except
    (mc_do stop ;;
     time_sleep 2 ;;
     set_state SUIVRE_LIGNE)
    (fun _ => ret tt).

(** def handle_turn_sign(self, angle) *)
Definition handle_turn_sign (angle : Q) : M world unit :=
  try_except
    (me <- get_self ;;
     mc_do (set_speed (min_speed me)) ;;
     mc_do (set_steering angle) ;;
     time_sleep 1 ;;
     mc_do (set_steering 0) ;;
     set_state SUIVRE_LIGNE)
    (fun _ => mc_do stop).

(** def handle_sign(self, sign_info) *)
Definition handle_sign (sign_info : SignInfo) : M world unit :=
  try_except
    (set_state TRAITER_PANNEAU ;;
     sign_class <- getitem (sign_class sign_info) ;;
     if String.eqb sign_class "STOP" then handle_stop_sign
     else if String.eqb sign_class "GAUCHE" then handle_turn_sign (-90)
     else if String.eqb sign_class "DROITE" then handle_turn_sign 90
     else ret tt)
    (fun _ => set_state SUIVRE_LIGNE).

(** The empty dict, default of [vision_data.get('line_info', {})]. *)
Definition empty_dict : LineInfo :=
  {| detected := None; position := None |}.

(** def update_from_vision(self, vision_data); [None] is a vision_data
    that is None or an empty dict. *)
Definition update_from_vision (vision_data : option VisionData)
    : M world unit :=
  try_except
    (match vision_data with
     | None => ret tt
     | Some vd =>
         let line_info := match line_info vd with
                          | Some li => li
                          | None => empty_dict
                          end in
         let signs := match signs vd with
                      | Some l => l
                      | None => []
                      end in
         me <- get_self ;;
         match signs with
         | sign0 :: _ =>
             if negb (NavigationState_eqb (state me) TRAITER_PANNEAU)
             then handle_sign sign0
             else if NavigationState_eqb (state me) SUIVRE_LIGNE
             then follow_line line_info
             else ret tt
         | [] =>
             if NavigationState_eqb (state me) SUIVRE_LIGNE
             then follow_line line_info
             else ret tt
         end
     end)
    (fun _ => ret tt).

(** [command.get('type') == name] *)
Definition type_is (cmd : Command) (name : string) : bool :=
  match cmd_type cmd with
  | Some t => String.eqb t name
  | None => false
  end.

(** def handle_command(self, command); [None] is a command that is None
    or an empty dict. *)
Definition handle_command (command : option Command) : M world unit :=
  try_except
    (match command with
     | None => ret tt
     | Some cmd =>
         if type_is cmd "speed" then
           value <- getitem (cmd_value cmd) ;;
           mc_do (set_speed value)
         else if type_is cmd "turn" then
           value <- getitem (cmd_value cmd) ;;
           mc_do (set_steering value)
         else if type_is cmd "stop" then
           mc_do stop
         else ret tt
     end)
    (fun _ => ret tt).

(** def update(self) *)
Definition update : M world unit :=
  try_except
    (me <- get_self ;;
     if NavigationState_eqb (state me) ARRET then mc_do stop
     else ret tt)
    (fun _ => ret tt).

(** A call of one of the three methods the navigation process uses. *)
Inductive method : Type :=
| call_update_from_vision (vision_data : option VisionData)
| call_handle_command (command : option Command)
| call_update.

Definition run_method (m : method) : M world unit :=
  match m with
  | call_update_from_vision vision_data => update_from_vision vision_data
  | call_handle_command command => handle_command command
  | call_update => update
  end.

(** The world after a sequence of method calls, outcomes dropped: none of
    the three methods lets an exception out. *)
Fixpoint run_methods (ms : list method) (w : world) : world :=
  match ms with
  | [] => w
  | m :: ms' => run_methods ms' (snd (run_method m w))
  end.

End WithMotorController.

(** Two states of a navigator with the same three parameters, the state
    of the second being that of the first, SUIVRE_LIGNE or
    TRAITER_PANNEAU. *)
Definition nav_kept (w w' : world) : Prop :=
  base_speed (self w') = base_speed (self w) /\
  min_speed (self w') = min_speed (self w) /\
  max_steering (self w') = max_steering (self w) /\
  (state (self w') = state (self w) \/
   state (self w') = SUIVRE_LIGNE \/
   state (self w') = TRAITER_PANNEAU).

(** Two states of a run with the same navigator attributes. *)
Definition self_kept (w w' : world) : Prop := self w' = self w.

End Nav.

(** ** src/control/motor_control.py

    Speeds and angles are rationals and their arithmetic is exact; the
    factor 0.8 of the ramp of stop is 8/10.  The methods avoid_obstacles
    and outHandle of the class read names that the module does not define
    and are left out. *)

Module Motor.

Local Open Scope Q_scope.

(** The calls MotorController makes on the Picarx object, and
    time.sleep. *)
Inductive hw_call : Type :=
| set_motor_speed (motor : Z) (speed : Q)
| set_dir_servo_angle (angle : Q)
| px_stop
| sleep (seconds : Q).

(** The attributes of a MotorController. *)
Record MotorController : Type := {
  max_speed : Q;
  min_speed : Q;
  max_steering : Q;
  current_speed : Q;
  current_steering : Q
}.

(** The attributes MotorController.__init__ sets. *)
Definition init : MotorController := {|
  max_speed := 50;
  min_speed := 10;
  max_steering := 30;
  current_speed := 0;
  current_steering := 0
|}.

Definition with_current_speed (mc : MotorController) (v : Q)
    : MotorController :=
  {| max_speed := max_speed mc;
     min_speed := min_speed mc;
     max_steering := max_steering mc;
     current_speed := v;
     current_steering := current_steering mc |}.

Definition with_current_steering (mc : MotorController) (a : Q)
    : MotorController :=
  {| max_speed := max_speed mc;
     min_speed := min_speed mc;
     max_steering := max_steering mc;
     current_speed := current_speed mc;
     current_steering := a |}.

(** The state of a run: the object and the calls made on the hardware. *)
Record world : Type := {
  self : MotorController;
  calls : list hw_call
}.

Section WithHardware.

(** [hw_raises i]: the call made at position [i] of [calls] raises. *)
Variable hw_raises : nat -> bool.

Definition hw_do (c : hw_call) : M world unit :=
  fun w =>
    (if hw_raises (length (calls w)) then Raises DeviceError
     else Returns tt,
     {| self := self w; calls := calls w ++ [c] |}).

Definition time_sleep (seconds : Q) : M world unit :=
  fun w =>
    (Returns tt, {| self := self w; calls := calls w ++ [sleep seconds] |}).

Definition get_self : M world MotorController :=
  fun w => (Returns (self w), w).

(** self.current_speed = v *)
Definition set_current_speed (v : Q) : M world unit :=
  fun w =>
    (Returns tt,
     {| self := with_current_speed (self w) v; calls := calls w |}).

(** self.current_steering = a *)
Definition set_current_steering (a : Q) : M world unit :=
  fun w =>
    (Returns tt,
     {| self := with_current_steering (self w) a; calls := calls w |}).

(** def set_speed(self, speed) *)
Definition set_speed (speed : Q) : M world unit :=
  try_except
    (me <- get_self ;;
     let speed := py_max (py_min speed (max_speed me)) (- max_speed me) in
     (if Qle_bool 0 speed then
        hw_do (set_motor_speed 1 speed) ;;
        hw_do (set_motor_speed 2 (- speed))
      else
        hw_do (set_motor_speed 1 speed) ;;
        hw_do (set_motor_speed 2 (- speed))) ;;
     set_current_speed speed)
    (fun _ => ret tt).

(** def set_steering(self, angle) *)
Definition set_steering (angle : Q) : M world unit :=
  try_except
    (me <- get_self ;;
     let angle :=
       py_max (py_min angle (max_steering me)) (- max_steering me) in
     hw_do (set_dir_servo_angle angle) ;;
     set_current_steering angle ;;
     me <- get_self ;;
     if negb (Qeq_bool (current_speed me) 0) then
       let power_scale := (100 - Qabs angle) / 100 in
       if Qltb 0 angle then
         hw_do (set_motor_speed 1 (current_speed me)) ;;
         hw_do (set_motor_speed 2 (- current_speed me * power_scale))
       else
         hw_do (set_motor_speed 1 (current_speed me * power_scale)) ;;
         hw_do (set_motor_speed 2 (- current_speed me))
     else ret tt)
    (fun _ => ret tt).

(** def emergency_stop(self) *)
Definition emergency_stop : M world unit :=
  try_except
    (hw_do px_stop ;;
     set_current_speed 0 ;;
     set_current_steering 0)
    (fun _ => ret tt).

(** The [while abs(self.current_speed) > 5] loop of stop. *)
Fixpoint stop_ramp (fuel : nat) : M world unit :=
  match fuel with
  | O => out_of_fuel
  | S fuel' =>
      me <- get_self ;;
      if Qltb 5 (Qabs (current_speed me)) then
        let new_speed := current_speed me * (8 # 10) in
        set_speed new_speed ;;
        time_sleep (1 # 10) ;;
        stop_ramp fuel'
      else ret tt
  end.

(** def stop(self) *)
Definition stop (fuel : nat) : M world unit :=
  try_except
    (stop_ramp fuel ;;
     hw_do px_stop ;;
     set_steering 0 ;;
     set_current_speed 0)
    (fun _ => emergency_stop).

End WithHardware.

(** No call of the hardware raises. *)
Definition reliable (hw_raises : nat -> bool) : Prop :=
  forall i, hw_raises i = false.

(** The speed recorded is within the limits of the controller. *)
Definition speed_within_limits (mc : MotorController) : Prop :=
  - max_speed mc <= current_speed mc <= max_speed mc.

(** Two states of a controller with the same limits, the second within
    them if the first is. *)
Definition limits_kept (w w' : world) : Prop :=
  max_speed (self w') = max_speed (self w) /\
  min_speed (self w') = min_speed (self w) /\
  max_steering (self w') = max_steering (self w) /\
  (speed_within_limits (self w) -> speed_within_limits (self w')).

(** The speed below which [n] passes of the ramp of stop bring any speed
    under 5. *)
Fixpoint ramp_reach (n : nat) : Q :=
  match n with
  | O => 5
  | S n' => ramp_reach n' * (5 # 4)
  end.

End Motor.

(** ** The snapshot channel of main.py (PiCarXController.vision_queue) *)

Module Channel.

(** The dict put on the queue by vision_process. *)
Record snapshot : Type := {
  snap_line_info : Nav.LineInfo;
  snap_signs : list Nav.SignInfo;
  timestamp : Z
}.

(** The state of the channel: the queue itself, and the snapshots pushed
    and received so far (these two are only observed by the theorems). *)
Record channel : Type := {
  pending : list snapshot;
  pushed : list snapshot;
  received : list snapshot
}.

(** self.vision_queue = mp.Queue() *)
Definition empty : channel :=
  {| pending := []; pushed := []; received := [] |}.

Section WithCapacity.

(** The capacity of the queue.  main.py builds it with [mp.Queue()],
    that is with no [maxsize], and the multiprocessing library then
    takes the largest value of a semaphore on the platform. *)
Variable maxsize : N.

(** vision_queue.put(item): the item goes to the tail; on a full queue
    the call blocks, so it gives no next state. *)
Definition put (item : snapshot) (c : channel) : option channel :=
  if (N.of_nat (length (pending c)) <? maxsize)%N then
    Some {| pending := pending c ++ [item];
            pushed := pushed c ++ [item];
            received := received c |}
  else None.

(** vision_queue.get(timeout=0.1): the item at the head, or the
    exception queue.Empty when the wait times out. *)
Definition get : M channel snapshot :=
  fun c =>
    match pending c with
    | item :: rest =>
        (Returns item,
         {| pending := rest; pushed := pushed c;
            received := received c ++ [item] |})
    | [] => (Raises QueueEmpty, c)
    end.

(** What one pass of the loop of vision_process finds: no frame, an
    exception in the acquisition or in a detector, or the snapshot to
    send. *)
Inductive capture : Type :=
| no_frame
| detection_raises (e : exn)
| captured (item : snapshot).

(** One pass of the loop of vision_process, on the channel. *)
Definition vision_iteration (f : capture) (c : channel)
    : option channel :=
  match f with
  | no_frame => Some c
  | detection_raises _ => Some c
  | captured item => put item c
  end.

(** The reception of vision data in one pass of the loop of
    navigation_process: the inner [try] logs queue.Empty and goes on. *)
Definition navigation_receive : M channel (option snapshot) :=
  try_except
    (vision_data <- get ;; ret (Some vision_data))
    (fun _ => ret None).

(** The two processes run in parallel; a step of the system is a pass
    of either loop. *)
Inductive step : channel -> channel -> Prop :=
| step_vision f c c' :
    vision_iteration f c = Some c' -> step c c'
| step_navigation c :
    step c (snd (navigation_receive c)).

Inductive reachable : channel -> Prop :=
| reachable_empty : reachable empty
| reachable_step c c' : reachable c -> step c c' -> reachable c'.

End WithCapacity.

(** The value of SEM_VALUE_MAX on Linux. *)
Definition SEM_VALUE_MAX : N := 2147483647.

End Channel.

(** ** Environments and inputs on which the properties are run *)

Module Examples.

Import Main.

(** The line status is the grayscale data itself, no call raises. *)
Definition picarx (distance : Q) (reading : list Z) : PicarxEnv :=
  {| px_raises := fun _ => false;
     px_ultrasonic := fun _ => distance;
     px_grayscale := fun _ => reading;
     px_get_line_status := fun v => v |}.

(** Far from any obstacle, both side sensors on the line. *)
Definition px_both_sides : PicarxEnv := picarx 100 [1; 0; 1].

(** A reading one thousandth below the safe distance. *)
Definition px_just_below_safe : PicarxEnv := picarx (39999 # 1000) [0; 1; 0].

(** A reading four thousandths below zero. *)
Definition px_just_below_zero : PicarxEnv := picarx (-4 # 1000) [0; 1; 0].

(** A reading of -1, as a sensor that timed out reports it. *)
Definition px_timeout : PicarxEnv := picarx (-1) [0; 1; 0].

(** An obstacle at 15 cm. *)
Definition px_obstacle : PicarxEnv := picarx 15 [0; 1; 0].

(** Far from any obstacle, on the line. *)
Definition px_on_line : PicarxEnv := picarx 100 [0; 1; 0].

(** Far from any obstacle, no sensor sees the line. *)
Definition px_off_line : PicarxEnv := picarx 100 [0; 0; 0].

(** A navigator as its constructor leaves it, before any call. *)
Definition fresh : Nav.world :=
  {| Nav.self := Nav.init; Nav.calls := []; Nav.assigned := [] |}.

(** A motor controller that never raises. *)
Definition sound : nat -> bool := fun _ => false.

(** A motor controller whose call at position [n] raises. *)
Definition fails_at (n : nat) : nat -> bool := fun i => Nat.eqb i n.

(** A vision update that carries signs of the given classes and the line
    information of a frame without a line. *)
Definition vision_with_signs (classes : list string)
    : option Nav.VisionData :=
  Some {| Nav.line_info :=
            Some {| Nav.detected := Some false; Nav.position := Some None |};
          Nav.signs :=
            Some (map (fun c => {| Nav.sign_class := Some c |}) classes) |}.

(** The line information of a frame without a line. *)
Definition no_line : Nav.LineInfo :=
  {| Nav.detected := Some false; Nav.position := Some None |}.

(** A motor controller as its constructor leaves it, driving at [v]. *)
Definition driving (v : Q) : Motor.world :=
  {| Motor.self := Motor.with_current_speed Motor.init v;
     Motor.calls := [] |}.

(** Hardware every call of which raises. *)
Definition broken : nat -> bool := fun _ => true.

(** The snapshot of a frame without line or sign, taken at time [t]. *)
Definition snapshot_at (t : Z) : Channel.snapshot :=
  {| Channel.snap_line_info := no_line;
     Channel.snap_signs := [];
     Channel.timestamp := t |}.

End Examples.

(** * Properties *)

(** ** Comparisons and rounding *)

Lemma Qltb_lt (x y : Q) : Qltb x y = true <-> (x < y)%Q.
Proof.
  unfold Qltb. rewrite negb_true_iff.
  split; intro H.
  - apply Qnot_le_lt. intro Hle. apply Qle_bool_iff in Hle. congruence.
  - destruct (Qle_bool y x) eqn:E; [|reflexivity].
    apply Qle_bool_iff in E. exfalso. exact (Qlt_not_le _ _ H E).
Qed.

Lemma Qltb_ge (x y : Q) : Qltb x y = false <-> (y <= x)%Q.
Proof.
  unfold Qltb. rewrite negb_false_iff. apply Qle_bool_iff.
Qed.

Lemma Qle_bool_lt (x y : Q) : Qle_bool x y = false <-> (y < x)%Q.
Proof.
  split; intro H.
  - apply Qnot_le_lt. intro Hle. apply Qle_bool_iff in Hle. congruence.
  - destruct (Qle_bool x y) eqn:E; [|reflexivity].
    apply Qle_bool_iff in E. exfalso. exact (Qlt_not_le _ _ H E).
Qed.

(** Rounding moves a number to its floor or to the integer above it. *)
Lemma round_half_even_floor (x : Q) :
  Qfloor x <= round_half_even x <= Qfloor x + 1.
Proof.
  unfold round_half_even.
  destruct (x - inject_Z (Qfloor x) ?= 1 # 2)%Q; [destruct (Z.even _)| |]; lia.
Qed.

(** A reading at or above a whole number of centimetres is not rounded
    below it. *)
Lemma round2_lower_bound (n : Z) (r : Q) :
  (inject_Z n <= r)%Q -> (inject_Z n <= round2 r)%Q.
Proof.
  intro H.
  assert (Hf : n * 100 <= Qfloor (r * 100)).
  { rewrite <- (Qfloor_Z (n * 100)). apply Qfloor_resp_le.
    rewrite inject_Z_mult. apply Qmult_le_compat_r; [exact H|discriminate]. }
  pose proof (round_half_even_floor (r * 100)) as [Hlo _].
  unfold round2, Qle. simpl. lia.
Qed.

(** A reading that is a whole number of hundredths is its own rounding. *)
Lemma round2_hundredths (n : Z) : round2 (n # 100) = (n # 100)%Q.
Proof.
  unfold round2. f_equal.
  unfold round_half_even.
  assert (Hf : Qfloor ((n # 100) * 100) = n).
  { unfold Qfloor, Qmult. simpl. apply Z.div_mul. discriminate. }
  rewrite Hf.
  assert (Hc : ((n # 100) * 100 - inject_Z n ?= 1 # 2)%Q = Lt).
  { rewrite <- Qlt_alt. unfold Qlt, Qminus, Qplus, Qmult, Qopp, inject_Z.
    simpl. lia. }
  rewrite Hc. reflexivity.
Qed.

(** ** main.py: the line-state classifier *)

Section MainProperties.

Import Main Examples.

Local Open Scope Q_scope.

(** Unfolds the monad of a computation applied to a trace. *)
Ltac run :=
  unfold try_except, bind, ret, raise, lift, out_of_fuel,
    px_read, px_do, time_sleep; cbn beta iota.

Ltac flatten_trace :=
  repeat rewrite <- app_assoc; cbn [app].

(** Runs the calls of an environment that does not raise. *)
Ltac calls_succeed H :=
  unfold reliable in H;
  repeat first [rewrite H | progress cbn beta iota].

(** get_status neither reads nor extends the trace. *)
Lemma get_status_pure (px : PicarxEnv) (val_list : list Z) (tr : trace) :
  get_status px val_list tr = (fst (get_status px val_list []), tr).
Proof.
  unfold get_status. run.
  destruct (list_Z_eqb _ _); [reflexivity|].
  unfold subscript.
  destruct (nth_error _ 1) as [s1|]; [|reflexivity].
  destruct (s1 =? 1)%Z; [reflexivity|].
  destruct (nth_error _ 0) as [s0|]; [|reflexivity].
  destruct (s0 =? 1)%Z; [reflexivity|].
  destruct (nth_error _ 2) as [s2|]; [|reflexivity].
  destruct (s2 =? 1)%Z; reflexivity.
Qed.

(** C3.  On each of the eight readings of three bits, get_status returns
    a state (it neither raises nor returns None) and leaves the trace as
    it was; the state is 'forward' when the centre bit is set whatever the
    side bits, else 'right' when the left bit is set, else 'left' when the
    right bit is set, and 'stop' on [0, 0, 0]. *)
Theorem get_status_total_with_priority
    (px : PicarxEnv) (val_list : list Z) (tr : trace) (l c r : Z) :
  (l = 0 \/ l = 1)%Z -> (c = 0 \/ c = 1)%Z -> (r = 0 \/ r = 1)%Z ->
  px_get_line_status px val_list = [l; c; r] ->
  exists st : string,
    get_status px val_list tr = (Returns (Some st), tr) /\
    (c = 1%Z -> st = "forward"%string) /\
    (c = 0%Z -> l = 1%Z -> st = "right"%string) /\
    (c = 0%Z -> l = 0%Z -> r = 1%Z -> st = "left"%string) /\
    (c = 0%Z -> l = 0%Z -> r = 0%Z -> st = "stop"%string).
Proof.
  intros Hl Hc Hr Hst.
  unfold get_status. rewrite Hst.
  destruct Hl as [-> | ->], Hc as [-> | ->], Hr as [-> | ->];
    cbn; eexists; (split; [reflexivity|]);
    repeat split; intros; try reflexivity; discriminate.
Qed.

Lemma get_status_total_with_priority_witness :
  exists st : string,
    get_status px_both_sides [1; 0; 1]%Z [] = (Returns (Some st), []) /\
    st = "right"%string.
Proof.
  destruct (get_status_total_with_priority px_both_sides [1; 0; 1]%Z []
              1 0 1) as [st [Hrun [_ [Hright _]]]].
  - right; reflexivity.
  - left; reflexivity.
  - right; reflexivity.
  - reflexivity.
  - exists st. split; [exact Hrun|]. apply Hright; reflexivity.
Defined.

(** ** main.py: the obstacle arbiter *)

(** After a valid reading and with calls that do not raise, the arbiter
    makes the calls of the band of the rounded distance and returns that
    distance. *)
Lemma avoid_obstacles_valid_reading (px : PicarxEnv) (tr : trace) :
  let d := round2 (px_ultrasonic px (length tr)) in
  reliable px ->
  0 <= d <= 1000 ->
  avoid_obstacles px tr = (Returns d, tr ++ ultrasonic_read :: band_calls d).
Proof.
  intros d Hrel [Hlo Hhi].
  assert (Hvalid : Qltb d 0 || Qltb (inject_Z 1000) d = false).
  { apply orb_false_iff. split; apply Qltb_ge; assumption. }
  unfold avoid_obstacles, band_calls. run. calls_succeed Hrel.
  fold d. rewrite Hvalid.
  destruct (Qle_bool (inject_Z SafeDistance) d);
    [|destruct (Qle_bool (inject_Z DangerDistance) d)];
    calls_succeed Hrel; flatten_trace; reflexivity.
Qed.

(** On a reading that is a whole number of hundredths of a centimetre the
    rounded distance is the reading, and the band is that of the reading
    itself. *)
Lemma avoid_obstacles_hundredths (px : PicarxEnv) (tr : trace) (n : Z) :
  reliable px ->
  px_ultrasonic px (length tr) = n # 100 ->
  (0 <= n <= 100000)%Z ->
  avoid_obstacles px tr =
    (Returns (n # 100), tr ++ ultrasonic_read :: band_calls (n # 100)).
Proof.
  intros Hrel Hread Hn.
  pose proof (avoid_obstacles_valid_reading px tr Hrel) as Hrun.
  cbv zeta in Hrun. rewrite Hread, round2_hundredths in Hrun.
  apply Hrun. unfold Qle. cbn. lia.
Qed.

(** C1, as the code has it.  Let d be the reading of the ultrasonic
    sensor rounded to two decimals, with 0 <= d <= 1000, and let no call
    raise.  If d >= 40 the arbiter sets the steering angle to 0 and drives
    forward at speed 40; if 20 <= d < 40 it sets the angle to +30, drives
    forward at 40 and waits 0.1 s; if d < 20 it sets the angle to -30,
    drives backward at 40 and waits 0.5 s.  It returns d each time. *)
Theorem avoid_obstacles_bands (px : PicarxEnv) (tr : trace) :
  let d := round2 (px_ultrasonic px (length tr)) in
  reliable px ->
  0 <= d <= 1000 ->
  (inject_Z SafeDistance <= d ->
   avoid_obstacles px tr =
     (Returns d,
      tr ++ [ultrasonic_read; set_dir_servo_angle 0;
             forward AVOID_OBSTACLES_SPEED])) /\
  (inject_Z DangerDistance <= d < inject_Z SafeDistance ->
   avoid_obstacles px tr =
     (Returns d,
      tr ++ [ultrasonic_read; set_dir_servo_angle 30;
             forward AVOID_OBSTACLES_SPEED; sleep (1 # 10)])) /\
  (0 <= d < inject_Z DangerDistance ->
   avoid_obstacles px tr =
     (Returns d,
      tr ++ [ultrasonic_read; set_dir_servo_angle (-30);
             backward AVOID_OBSTACLES_SPEED; sleep (1 # 2)])).
Proof.
  intros d Hrel Hvalid.
  rewrite (avoid_obstacles_valid_reading px tr Hrel Hvalid). fold d.
  unfold band_calls.
  repeat split.
  - intro Hsafe. apply Qle_bool_iff in Hsafe. rewrite Hsafe. reflexivity.
  - intros [Hdanger Hsafe].
    apply Qle_bool_lt in Hsafe. apply Qle_bool_iff in Hdanger.
    rewrite Hsafe, Hdanger. reflexivity.
  - intros [_ Hdanger].
    assert (Hsafe : Qle_bool (inject_Z SafeDistance) d = false).
    { apply Qle_bool_lt. eapply Qlt_trans; [exact Hdanger|]. reflexivity. }
    apply Qle_bool_lt in Hdanger.
    rewrite Hsafe, Hdanger. reflexivity.
Qed.

Lemma avoid_obstacles_bands_witness :
  avoid_obstacles px_both_sides [] =
    (Returns (round2 100),
     [ultrasonic_read; set_dir_servo_angle 0; forward AVOID_OBSTACLES_SPEED]).
Proof.
  apply (avoid_obstacles_bands px_both_sides []).
  - intro i. reflexivity.
  - split; vm_compute; discriminate.
  - vm_compute. discriminate.
Defined.

(** C1 as stated fails on the reading 39.999: it lies in [20, 40), and the
    arbiter, which compares the rounded value 40.0, takes the Safe branch
    instead of the Caution one. *)
Lemma avoid_obstacles_bands_of_raw_reading_counterexample :
  ~ (forall (px : PicarxEnv) (tr : trace),
       let d := px_ultrasonic px (length tr) in
       reliable px ->
       0 <= d <= 1000 ->
       (inject_Z SafeDistance <= d ->
        snd (avoid_obstacles px tr) =
          tr ++ [ultrasonic_read; set_dir_servo_angle 0;
                 forward AVOID_OBSTACLES_SPEED]) /\
       (inject_Z DangerDistance <= d < inject_Z SafeDistance ->
        snd (avoid_obstacles px tr) =
          tr ++ [ultrasonic_read; set_dir_servo_angle 30;
                 forward AVOID_OBSTACLES_SPEED; sleep (1 # 10)]) /\
       (0 <= d < inject_Z DangerDistance ->
        snd (avoid_obstacles px tr) =
          tr ++ [ultrasonic_read; set_dir_servo_angle (-30);
                 backward AVOID_OBSTACLES_SPEED; sleep (1 # 2)])).
Proof.
  intro H.
  destruct (H px_just_below_safe []) as [_ [Hcaution _]].
  - intro i. reflexivity.
  - split; vm_compute; discriminate.
  - assert (Hband : inject_Z DangerDistance <= 39999 # 1000
                    < inject_Z SafeDistance).
    { split; [vm_compute; discriminate | reflexivity]. }
    specialize (Hcaution Hband). vm_compute in Hcaution. discriminate.
Qed.

(** C2, as the code has it.  When the read of the ultrasonic sensor
    raises, or the reading rounded to two decimals is negative, or the
    reading is above 1000, the arbiter returns normally a value that is at
    least the safe distance, and every call it made is a call of the Safe
    band: no Caution or Danger maneuver.  When the read raises or the
    rounded reading is negative or above 1000, it returns 41 after the read
    alone. *)
Theorem avoid_obstacles_fail_open (px : PicarxEnv) (tr : trace) :
  let r := px_ultrasonic px (length tr) in
  px_raises px (length tr) = true \/ round2 r < 0 \/ 1000 < r ->
  exists (v : Q) (tr' : trace),
    avoid_obstacles px tr = (Returns v, tr ++ tr') /\
    inject_Z SafeDistance <= v /\
    Forall safe_call tr' /\
    (px_raises px (length tr) = true \/ round2 r < 0 \/ 1000 < round2 r ->
     v = inject_Z (SafeDistance + 1) /\ tr' = [ultrasonic_read]).
Proof.
  intros r H.
  assert (Hread : safe_call ultrasonic_read) by (left; reflexivity).
  assert (Hservo : safe_call (set_dir_servo_angle 0))
    by (right; left; reflexivity).
  assert (Hforward : safe_call (forward AVOID_OBSTACLES_SPEED))
    by (right; right; reflexivity).
  assert (H41 : inject_Z SafeDistance <= inject_Z (SafeDistance + 1))
    by (vm_compute; discriminate).
  unfold avoid_obstacles. run.
  destruct (px_raises px (length tr)) eqn:Eread.
  { exists (inject_Z (SafeDistance + 1)), [ultrasonic_read].
    split; [reflexivity|]. split; [assumption|]. split; [auto|].
    intros _. split; reflexivity. }
  fold r.
  destruct (Qltb (round2 r) 0) eqn:Eneg; cbn [orb].
  { exists (inject_Z (SafeDistance + 1)), [ultrasonic_read].
    split; [reflexivity|]. split; [assumption|]. split; [auto|].
    intros _. split; reflexivity. }
  destruct (Qltb (inject_Z 1000) (round2 r)) eqn:Ehigh.
  { exists (inject_Z (SafeDistance + 1)), [ultrasonic_read].
    split; [reflexivity|]. split; [assumption|]. split; [auto|].
    intros _. split; reflexivity. }
  apply Qltb_ge in Eneg. apply Qltb_ge in Ehigh.
  assert (Hr : 1000 < r).
  { destruct H as [H | [H | H]]; [discriminate | | exact H].
    exfalso. exact (Qlt_not_le _ _ H Eneg). }
  assert (Hd : inject_Z 1000 <= round2 r).
  { apply round2_lower_bound. apply Qlt_le_weak. exact Hr. }
  assert (Hsafe : inject_Z SafeDistance <= round2 r).
  { eapply Qle_trans; [|exact Hd]. vm_compute. discriminate. }
  assert (Hexact : px_raises px (length tr) = true \/ round2 r < 0 \/
                   1000 < round2 r -> False).
  { intros [Hx | [Hx | Hx]]; [congruence | |].
    - exact (Qlt_not_le _ _ Hx Eneg).
    - exact (Qlt_not_le _ _ Hx Ehigh). }
  rewrite Eread in Hexact.
  pose proof Hsafe as Hsafeb. apply Qle_bool_iff in Hsafeb. rewrite Hsafeb.
  destruct (px_raises px (length (tr ++ [ultrasonic_read]))).
  { exists (inject_Z (SafeDistance + 1)),
      [ultrasonic_read; set_dir_servo_angle 0].
    flatten_trace.
    split; [reflexivity|]. split; [assumption|]. split; [auto|].
    intro Hx. destruct (Hexact Hx). }
  destruct (px_raises px
              (length ((tr ++ [ultrasonic_read]) ++ [set_dir_servo_angle 0]))).
  { exists (inject_Z (SafeDistance + 1)),
      [ultrasonic_read; set_dir_servo_angle 0; forward AVOID_OBSTACLES_SPEED].
    flatten_trace.
    split; [reflexivity|]. split; [assumption|]. split; [auto|].
    intro Hx. destruct (Hexact Hx). }
  exists (round2 r),
    [ultrasonic_read; set_dir_servo_angle 0; forward AVOID_OBSTACLES_SPEED].
  flatten_trace.
    split; [reflexivity|]. split; [assumption|]. split; [auto|].
    intro Hx. destruct (Hexact Hx).
Qed.

Lemma avoid_obstacles_fail_open_witness :
  exists (v : Q) (tr' : trace),
    avoid_obstacles px_timeout [] = (Returns v, tr') /\
    inject_Z SafeDistance <= v /\
    Forall safe_call tr'.
Proof.
  destruct (avoid_obstacles_fail_open px_timeout []) as [v [tr' [H1 [H2 [H3 _]]]]].
  - right; left. reflexivity.
  - exists v, tr'. repeat split; assumption.
Defined.

(** C2 as stated fails on the reading -0.004: it is negative, its rounded
    value is not, and the arbiter performs the Danger maneuver and returns
    a distance below the safe one. *)
Lemma avoid_obstacles_negative_reading_counterexample :
  ~ (forall (px : PicarxEnv) (tr : trace),
       let r := px_ultrasonic px (length tr) in
       px_raises px (length tr) = true \/ r < 0 \/ 1000 < r ->
       exists (v : Q) (tr' : trace),
         avoid_obstacles px tr = (Returns v, tr ++ tr') /\
         inject_Z SafeDistance <= v /\
         Forall safe_call tr').
Proof.
  intro H.
  destruct (H px_just_below_zero []) as [v [tr' [Hrun [Hv _]]]].
  - right; left. reflexivity.
  - vm_compute in Hrun. injection Hrun as Hv' _. subst v.
    vm_compute in Hv. apply Hv. reflexivity.
Qed.

(** ** main.py: one tick of line tracking *)

(** The arbiter always returns: it first reads the ultrasonic sensor, and
    never reads the line sensor. *)
Lemma avoid_obstacles_returns (px : PicarxEnv) (tr : trace) :
  exists (d : Q) (tr1 : trace),
    avoid_obstacles px tr = (Returns d, tr ++ ultrasonic_read :: tr1) /\
    ~ In get_grayscale_data tr1.
Proof.
  unfold avoid_obstacles. run.
  destruct (px_raises px (length tr));
    [do 2 eexists; split; [reflexivity | intros []]|].
  destruct (_ || _);
    [do 2 eexists; split; [reflexivity | intros []]|].
  destruct (Qle_bool (inject_Z SafeDistance) _);
    [|destruct (Qle_bool (inject_Z DangerDistance) _)];
    destruct (px_raises px (length (tr ++ [ultrasonic_read])));
    try destruct (px_raises px (length ((tr ++ [ultrasonic_read]) ++ _)));
    do 2 eexists; flatten_trace;
    (split; [reflexivity | cbn [In]; intuition discriminate]).
Qed.

(** C4.  A tick of line_track starts with the obstacle check: its first
    call is the read of the ultrasonic sensor.  When the distance the
    arbiter returns is below the safe distance, the tick ends there: it
    returns the last line state unchanged, and its calls are exactly those
    of the arbiter, none of which reads the line sensor.  Otherwise line
    following starts after the calls of the arbiter. *)
Theorem line_track_checks_obstacles_first
    (px : PicarxEnv) (fuel : nat) (last_line_state : pystate) (tr : trace) :
  exists (d : Q) (tr1 : trace),
    avoid_obstacles px tr = (Returns d, tr ++ ultrasonic_read :: tr1) /\
    ~ In get_grayscale_data tr1 /\
    (d < inject_Z SafeDistance ->
     line_track px fuel last_line_state tr =
       (Returns last_line_state, tr ++ ultrasonic_read :: tr1)) /\
    (inject_Z SafeDistance <= d ->
     line_track px fuel last_line_state tr =
       line_track_follow px fuel last_line_state
         (tr ++ ultrasonic_read :: tr1)).
Proof.
  destruct (avoid_obstacles_returns px tr) as [d [tr1 [Hrun Hgray]]].
  exists d, tr1. split; [exact Hrun|]. split; [exact Hgray|].
  unfold line_track, bind. rewrite Hrun.
  split; intro Hd.
  - apply Qltb_lt in Hd. rewrite Hd. reflexivity.
  - apply Qltb_ge in Hd. rewrite Hd. reflexivity.
Qed.

Lemma line_track_checks_obstacles_first_witness :
  line_track px_obstacle 1 (Some "left"%string) [] =
    (Returns (Some "left"%string),
     [ultrasonic_read; set_dir_servo_angle (-30);
      backward AVOID_OBSTACLES_SPEED; sleep (1 # 2)]).
Proof.
  destruct (line_track_checks_obstacles_first px_obstacle 1
              (Some "left"%string) [])
    as [d [tr1 [Hrun [_ [Hbelow _]]]]].
  vm_compute in Hrun. injection Hrun as Hd Htr1. subst d tr1.
  apply Hbelow. reflexivity.
Defined.

(** C8 as stated fails far from any obstacle with the line under the
    centre sensor: the tick drives forward at 40 for the arbiter and then
    forward at 10 for the line follower. *)
Lemma line_track_single_directive_counterexample :
  ~ (forall (px : PicarxEnv) (fuel : nat) (last_line_state : pystate)
            (tr tick : trace) (o : outcome pystate),
       line_track px fuel last_line_state tr = (o, tr ++ tick) ->
       (length (filter is_drive tick) <= 1)%nat).
Proof.
  intro H.
  specialize (H px_on_line 1%nat (Some "forward"%string) []
                [ultrasonic_read; set_dir_servo_angle 0; forward 40;
                 get_grayscale_data; set_dir_servo_angle 0; forward 10]
                (Returns (Some "forward"%string)) eq_refl).
  cbn in H. lia.
Qed.

(** C8, as the code has it.  Let no call raise and let d be the rounded
    reading.  When d is valid and below the safe distance, the tick issues
    the directive of the arbiter and nothing else.  When d is valid and at
    least the safe distance and the line is seen, the tick issues the
    Safe directive of the arbiter (angle 0, forward at 40) and then the
    directive of the line follower (angle of the state, forward at 10),
    which is the last one applied.  When d is invalid the arbiter issues
    nothing and line following runs. *)
Theorem line_track_directives
    (px : PicarxEnv) (fuel : nat) (last_line_state : pystate) (tr : trace) :
  let d := round2 (px_ultrasonic px (length tr)) in
  reliable px ->
  (0 <= d < inject_Z SafeDistance ->
   exists tr1 : trace,
     avoid_obstacles px tr = (Returns d, tr ++ tr1) /\
     line_track px fuel last_line_state tr =
       (Returns last_line_state, tr ++ tr1) /\
     length (filter is_drive tr1) = 1%nat) /\
  (inject_Z SafeDistance <= d <= 1000 ->
   forall st : string,
     sample_state px (length tr + 3) = Returns (Some st) ->
     st = "forward"%string \/ st = "left"%string \/ st = "right"%string ->
     line_track px fuel last_line_state tr =
       (Returns (Some st),
        tr ++ [ultrasonic_read; set_dir_servo_angle 0;
               forward AVOID_OBSTACLES_SPEED;
               get_grayscale_data; set_dir_servo_angle (line_angle st);
               forward LINE_TRACK_SPEED])) /\
  (d < 0 \/ 1000 < d ->
   line_track px fuel last_line_state tr =
     line_track_follow px fuel last_line_state (tr ++ [ultrasonic_read])).
Proof.
  intros d Hrel.
  split; [|split].
  - intros [Hlo Hsafe].
    assert (Hvalid : 0 <= d <= 1000).
    { split; [exact Hlo|]. apply Qlt_le_weak.
      eapply Qlt_trans; [exact Hsafe|]. reflexivity. }
    pose proof (avoid_obstacles_valid_reading px tr Hrel Hvalid) as Hrun.
    fold d in Hrun.
    exists (ultrasonic_read :: band_calls d).
    split; [exact Hrun|]. split.
    + unfold line_track, bind. rewrite Hrun.
      apply Qltb_lt in Hsafe. rewrite Hsafe. reflexivity.
    + unfold band_calls. apply Qle_bool_lt in Hsafe. rewrite Hsafe.
      destruct (Qle_bool (inject_Z DangerDistance) d); reflexivity.
  - intros [Hsafe Hhi] st Hsample Hst.
    assert (Hvalid : 0 <= d <= 1000).
    { split; [|exact Hhi]. eapply Qle_trans; [|exact Hsafe].
      vm_compute. discriminate. }
    pose proof (avoid_obstacles_valid_reading px tr Hrel Hvalid) as Hrun.
    fold d in Hrun. unfold band_calls in Hrun.
    rewrite (proj2 (Qle_bool_iff _ _) Hsafe) in Hrun.
    unfold line_track, bind. rewrite Hrun.
    apply Qltb_ge in Hsafe. rewrite Hsafe.
    unfold line_track_follow. run. calls_succeed Hrel.
    rewrite get_status_pure.
    replace (length (tr ++ [ultrasonic_read; set_dir_servo_angle 0;
                            forward AVOID_OBSTACLES_SPEED]))
      with (length tr + 3)%nat by (rewrite length_app; reflexivity).
    fold (sample_state px (length tr + 3)). rewrite Hsample.
    destruct Hst as [-> | [-> | ->]]; cbn; calls_succeed Hrel;
      flatten_trace; reflexivity.
  - intro Hinvalid.
    assert (Hb : Qltb d 0 || Qltb (inject_Z 1000) d = true).
    { apply orb_true_iff.
      destruct Hinvalid as [H | H]; [left | right]; apply Qltb_lt; exact H. }
    unfold line_track, avoid_obstacles. run. calls_succeed Hrel.
    fold d. rewrite Hb. reflexivity.
Qed.

Lemma line_track_directives_witness :
  line_track px_on_line 1 (Some "forward"%string) [] =
    (Returns (Some "forward"%string),
     [ultrasonic_read; set_dir_servo_angle 0; forward AVOID_OBSTACLES_SPEED;
      get_grayscale_data; set_dir_servo_angle 0; forward LINE_TRACK_SPEED]).
Proof.
  assert (Hrel : reliable px_on_line) by (intro i; reflexivity).
  destruct (line_track_directives px_on_line 1 (Some "forward"%string) []
              Hrel) as [_ [Hsafe _]].
  apply Hsafe.
  - split; vm_compute; discriminate.
  - reflexivity.
  - left. reflexivity.
Defined.

(** ** main.py: recovery when the line is lost *)

Lemma pystate_eqb_eq (a b : pystate) : pystate_eqb a b = true <-> a = b.
Proof.
  destruct a as [x|], b as [y|]; cbn; split; intro H;
    try discriminate; try reflexivity.
  - apply String.eqb_eq in H. congruence.
  - injection H as ->. apply String.eqb_refl.
Qed.

Lemma pystate_eqb_neq (a b : pystate) : pystate_eqb a b = false <-> a <> b.
Proof.
  split; intro H.
  - intro E. apply pystate_eqb_eq in E. congruence.
  - destruct (pystate_eqb a b) eqn:E; [|reflexivity].
    apply pystate_eqb_eq in E. contradiction.
Qed.

(** One pass of the loop: a sample is read and classified. *)
Lemma outHandle_loop_step
    (px : PicarxEnv) (fuel : nat) (last_line_state st : pystate)
    (tr : trace) :
  reliable px ->
  sample_state px (length tr) = Returns st ->
  outHandle_loop px (S fuel) last_line_state tr =
    if negb (pystate_eqb st last_line_state)
    then (Returns tt, tr ++ [get_grayscale_data])
    else outHandle_loop px fuel last_line_state (tr ++ [get_grayscale_data]).
Proof.
  intros Hrel Hsample.
  cbn [outHandle_loop]. run. calls_succeed Hrel.
  rewrite get_status_pure. fold (sample_state px (length tr)).
  rewrite Hsample. cbn beta iota.
  destruct (negb (pystate_eqb st last_line_state)); reflexivity.
Qed.

(** The loop ends at the first sample whose state differs from the last
    line state. *)
Lemma outHandle_loop_exits
    (px : PicarxEnv) (last_line_state : pystate) :
  reliable px ->
  forall (k : nat) (tr : trace) (fuel : nat),
    (forall i, (i < k)%nat ->
               sample_state px (length tr + i) = Returns last_line_state) ->
    (exists st, sample_state px (length tr + k) = Returns st /\
                st <> last_line_state) ->
    (k < fuel)%nat ->
    outHandle_loop px fuel last_line_state tr =
      (Returns tt, tr ++ repeat get_grayscale_data (S k)).
Proof.
  intros Hrel k.
  induction k as [|k IH]; intros tr fuel Hsame [st [Hst Hneq]] Hfuel;
    (destruct fuel as [|fuel]; [lia|]).
  - rewrite Nat.add_0_r in Hst.
    rewrite (outHandle_loop_step px fuel last_line_state st tr Hrel Hst).
    apply pystate_eqb_neq in Hneq. rewrite Hneq. reflexivity.
  - assert (H0 : sample_state px (length tr) = Returns last_line_state).
    { rewrite <- (Nat.add_0_r (length tr)). apply Hsame. lia. }
    rewrite (outHandle_loop_step px fuel last_line_state _ tr Hrel H0).
    rewrite (proj2 (pystate_eqb_eq _ _) eq_refl). cbn [negb].
    rewrite (IH (tr ++ [get_grayscale_data]) fuel).
    + rewrite <- app_assoc. reflexivity.
    + intros i Hi. rewrite length_app. cbn [length].
      replace (length tr + 1 + i)%nat with (length tr + S i)%nat by lia.
      apply Hsame. lia.
    + exists st. split; [|exact Hneq].
      rewrite length_app. cbn [length].
      replace (length tr + 1 + k)%nat with (length tr + S k)%nat by lia.
      exact Hst.
    + lia.
Qed.

(** The loop never ends while every sample has the last line state. *)
Lemma outHandle_loop_spins
    (px : PicarxEnv) (last_line_state : pystate) :
  reliable px ->
  forall (fuel : nat) (tr : trace),
    (forall i, sample_state px (length tr + i) = Returns last_line_state) ->
    outHandle_loop px fuel last_line_state tr =
      (OutOfFuel, tr ++ repeat get_grayscale_data fuel).
Proof.
  intros Hrel fuel.
  induction fuel as [|fuel IH]; intros tr Hsame.
  - cbn. rewrite app_nil_r. reflexivity.
  - assert (H0 : sample_state px (length tr) = Returns last_line_state).
    { rewrite <- (Nat.add_0_r (length tr)). apply Hsame. }
    rewrite (outHandle_loop_step px fuel last_line_state _ tr Hrel H0).
    rewrite (proj2 (pystate_eqb_eq _ _) eq_refl). cbn [negb].
    rewrite IH.
    + rewrite <- app_assoc. reflexivity.
    + intro i. rewrite length_app. cbn [length].
      replace (length tr + 1 + i)%nat with (length tr + S i)%nat by lia.
      apply Hsame.
Qed.

(** The calls made before the loop. *)
Lemma outHandle_steer_calls
    (px : PicarxEnv) (last_line_state : pystate) (tr : trace) :
  reliable px ->
  outHandle_steer px last_line_state tr =
    (Returns tt, tr ++ steer_calls last_line_state).
Proof.
  intro Hrel. unfold outHandle_steer, steer_calls.
  destruct (pystate_eqb last_line_state (Some "left"%string));
    [|destruct (pystate_eqb last_line_state (Some "right"%string))];
    run; calls_succeed Hrel; flatten_trace;
    rewrite ?app_nil_r; reflexivity.
Qed.

(** C6, as the code has it.  Let no call raise.  outHandle first steers to
    -30 and backs at speed 10 when the last line state is 'left', steers to
    +30 and backs when it is 'right', and does neither otherwise.  It then
    samples and classifies the line sensor in a loop with no delay between
    samples, and leaves the loop at the first sample whose state differs
    from the last line state: with k samples of that state followed by a
    sample of another, it reads k + 1 samples, sleeps 1 ms once and
    returns.  While every sample has the last line state it never
    returns. *)
Theorem outHandle_polls_until_state_changes
    (px : PicarxEnv) (last_line_state : pystate) (tr : trace) :
  reliable px ->
  let start := (length tr + length (steer_calls last_line_state))%nat in
  (forall k : nat,
     (forall i, (i < k)%nat ->
                sample_state px (start + i) = Returns last_line_state) ->
     (exists st, sample_state px (start + k) = Returns st /\
                 st <> last_line_state) ->
     forall fuel, (k < fuel)%nat ->
       outHandle px fuel last_line_state tr =
         (Returns tt,
          tr ++ steer_calls last_line_state ++
          repeat get_grayscale_data (S k) ++ [sleep (1 # 1000)])) /\
  ((forall i, sample_state px (start + i) = Returns last_line_state) ->
   forall fuel,
     outHandle px fuel last_line_state tr =
       (OutOfFuel,
        tr ++ steer_calls last_line_state ++
        repeat get_grayscale_data fuel)).
Proof.
  intros Hrel start.
  assert (Hstart : length (tr ++ steer_calls last_line_state) = start)
    by apply length_app.
  split.
  - intros k Hsame Hdiff fuel Hfuel.
    unfold outHandle, bind at 1.
    rewrite (outHandle_steer_calls px last_line_state tr Hrel).
    unfold bind.
    rewrite (outHandle_loop_exits px last_line_state Hrel k
               (tr ++ steer_calls last_line_state) fuel);
      try (rewrite Hstart; assumption); [|assumption].
    unfold time_sleep. rewrite <- !app_assoc. reflexivity.
  - intros Hsame fuel.
    unfold outHandle, bind at 1.
    rewrite (outHandle_steer_calls px last_line_state tr Hrel).
    unfold bind.
    rewrite (outHandle_loop_spins px last_line_state Hrel fuel
               (tr ++ steer_calls last_line_state));
      [|rewrite Hstart; assumption].
    rewrite <- !app_assoc. reflexivity.
Qed.

Lemma outHandle_polls_until_state_changes_witness :
  outHandle px_off_line 1 (Some "left"%string) [] =
    (Returns tt,
     [set_dir_servo_angle (-30); backward 10; get_grayscale_data;
      sleep (1 # 1000)]).
Proof.
  assert (Hrel : reliable px_off_line) by (intro i; reflexivity).
  destruct (outHandle_polls_until_state_changes px_off_line
              (Some "left"%string) [] Hrel) as [Hexit _].
  apply (Hexit 0%nat).
  - intros i Hi. lia.
  - exists (Some "stop"%string). split; [reflexivity | discriminate].
  - lia.
Defined.

(** C6 as stated fails when the last line state is 'left' and the sensor
    still sees no line: the sample is classified 'stop', that is Lost, and
    the loop ends on it instead of sampling again. *)
Lemma outHandle_loop_lost_sample_counterexample :
  ~ (forall (px : PicarxEnv) (last_line_state : pystate) (tr : trace)
            (fuel : nat),
       reliable px ->
       (sample_state px (length tr) = Returns (Some "stop"%string) ->
        outHandle_loop px (S fuel) last_line_state tr =
          outHandle_loop px fuel last_line_state
            (tr ++ [get_grayscale_data])) /\
       (forall st, sample_state px (length tr) = Returns st ->
                   st <> Some "stop"%string ->
        outHandle_loop px (S fuel) last_line_state tr =
          (Returns tt, tr ++ [get_grayscale_data]))).
Proof.
  intro H.
  destruct (H px_off_line (Some "left"%string) [] 0%nat) as [Hlost _].
  - intro i. reflexivity.
  - specialize (Hlost eq_refl). vm_compute in Hlost. discriminate.
Qed.

End MainProperties.

(** ** navigator.py: line following without a line *)

Section NavigatorProperties.

Import Nav Examples.

Local Open Scope Q_scope.

Ltac run_nav :=
  unfold try_except, bind, ret, raise, lift, get_self, set_state, mc_do,
    time_sleep, getitem; cbn beta iota.

(** C10.  When the line information does not report a line (the key
    'detected' is absent or false), follow_line makes one call on the motor
    controller: set_speed(min_speed) when a last line position is recorded,
    stop() when none is.  It makes no set_steering call and no call with a
    negative speed, and it leaves the navigator, its last line position
    included, as it was.  When that call does not raise, follow_line
    returns at once; when it raises, the handler calls stop(). *)
Theorem follow_line_not_detected
    (mc_raises : nat -> bool) (line_info : LineInfo) (w : world) :
  detected line_info = None \/ detected line_info = Some false ->
  let directive :=
    match last_line_pos (self w) with
    | Some _ => set_speed (min_speed (self w))
    | None => stop
    end in
  self (snd (follow_line mc_raises line_info w)) = self w /\
  assigned (snd (follow_line mc_raises line_info w)) = assigned w /\
  (mc_raises (length (calls w)) = false ->
   follow_line mc_raises line_info w =
     (Returns tt,
      {| self := self w; calls := calls w ++ [directive];
         assigned := assigned w |})) /\
  (mc_raises (length (calls w)) = true ->
   calls (snd (follow_line mc_raises line_info w)) =
     calls w ++ [directive; stop]).
Proof.
  intros Hdet directive.
  assert (Hnot : negb (match detected line_info with
                       | Some b => b
                       | None => false
                       end) = true)
    by (destruct Hdet as [-> | ->]; reflexivity).
  unfold follow_line. rewrite Hnot. subst directive. run_nav.
  destruct w as [me cs hist]. cbn.
  destruct (last_line_pos me) as [p|]; cbn;
    destruct (mc_raises (length cs)) eqn:E; cbn;
    (repeat split; intros; try discriminate; try reflexivity);
    rewrite <- app_assoc; reflexivity.
Qed.

Lemma follow_line_not_detected_witness :
  follow_line sound no_line fresh =
    (Returns tt, {| self := init; calls := [stop]; assigned := [] |}).
Proof.
  destruct (follow_line_not_detected sound no_line fresh) as [_ [_ [H _]]].
  - right. reflexivity.
  - apply H. reflexivity.
Defined.

(** ** navigator.py: reactions to signs *)

(** Once the state is TRAITER_PANNEAU, a vision update does nothing,
    whatever it carries: no later update takes the navigator out of that
    state. *)
Lemma update_from_vision_while_handling_sign
    (mc_raises : nat -> bool) (vision_data : option VisionData) (w : world) :
  state (self w) = TRAITER_PANNEAU ->
  update_from_vision mc_raises vision_data w = (Returns tt, w).
Proof.
  intro Hstate.
  unfold update_from_vision. run_nav.
  destruct vision_data as [vd|]; [|reflexivity].
  rewrite Hstate. cbn.
  destruct (signs vd) as [[|sign0 rest]|]; reflexivity.
Qed.

(** A sign of a class the navigator knows, handled by a motor controller
    that does not raise: the state goes to TRAITER_PANNEAU once and comes
    back to SUIVRE_LIGNE, and the calls are those of the reaction to the
    first sign alone. *)
Lemma update_from_vision_known_sign
    (mc_raises : nat -> bool) (cls : string) (rest : list SignInfo)
    (li : option LineInfo) (w : world) :
  (forall i, mc_raises i = false) ->
  state (self w) <> TRAITER_PANNEAU ->
  cls = "STOP"%string \/ cls = "GAUCHE"%string \/ cls = "DROITE"%string ->
  update_from_vision mc_raises
    (Some {| line_info := li;
             signs := Some ({| sign_class := Some cls |} :: rest) |}) w =
    (Returns tt,
     {| self := with_state (self w) SUIVRE_LIGNE;
        calls :=
          calls w ++
          (if String.eqb cls "STOP" then [stop; sleep 2]
           else [set_speed (min_speed (self w));
                 set_steering (if String.eqb cls "GAUCHE" then -90 else 90);
                 sleep 1; set_steering 0]);
        assigned := assigned w ++ [TRAITER_PANNEAU; SUIVRE_LIGNE] |}).
Proof.
  intros Hok Hstate Hcls.
  assert (Hneq : NavigationState_eqb (state (self w)) TRAITER_PANNEAU
                 = false)
    by (destruct (state (self w)); try reflexivity; contradiction).
  unfold update_from_vision. run_nav. cbn [signs]. rewrite Hneq. cbn [negb].
  unfold handle_sign, handle_stop_sign, handle_turn_sign. run_nav.
  destruct w as [me cs hist].
  destruct Hcls as [-> | [-> | ->]]; cbn; rewrite ?Hok; cbn;
    rewrite ?Hok; cbn; rewrite ?Hok; cbn;
    repeat rewrite <- app_assoc; reflexivity.
Qed.

(** C5, on the code.  A stop sign whose call to stop() raises: the
    exception is caught, nothing more is issued, and the state stays
    TRAITER_PANNEAU.  A left-turn sign whose call to set_steering raises:
    the exception is caught, stop() is called, and the state stays
    TRAITER_PANNEAU. *)
Theorem failed_maneuver_stays_in_TRAITER_PANNEAU :
  update_from_vision (fails_at 0) (vision_with_signs ["STOP"%string]) fresh =
    (Returns tt,
     {| self := with_state init TRAITER_PANNEAU;
        calls := [stop];
        assigned := [TRAITER_PANNEAU] |}) /\
  update_from_vision (fails_at 1) (vision_with_signs ["GAUCHE"%string]) fresh =
    (Returns tt,
     {| self := with_state init TRAITER_PANNEAU;
        calls := [set_speed 15; set_steering (-90); stop];
        assigned := [TRAITER_PANNEAU] |}).
Proof.
  split; reflexivity.
Qed.

(** Outside the classes of signs the navigator knows.  A sign whose class
    is none of 'STOP', 'GAUCHE' and 'DROITE', followed by a stop sign in
    the same update: the state is set to TRAITER_PANNEAU, no reaction
    runs, no exception is raised, and the state stays TRAITER_PANNEAU; the
    next update, which carries a stop sign, changes nothing. *)
Theorem unknown_sign_class_stays_in_TRAITER_PANNEAU :
  let after :=
    {| self := with_state init TRAITER_PANNEAU;
       calls := [];
       assigned := [TRAITER_PANNEAU] |} in
  update_from_vision sound
    (vision_with_signs ["CEDEZ"%string; "STOP"%string]) fresh =
    (Returns tt, after) /\
  update_from_vision sound (vision_with_signs ["STOP"%string]) after =
    (Returns tt, after).
Proof.
  split; reflexivity.
Qed.

(** C7.  A vision update whose sign list is not empty, received in a
    state other than TRAITER_PANNEAU, the first sign being of one of the
    classes 'STOP', 'GAUCHE', 'DROITE' and the motor controller not
    raising: the state is set to TRAITER_PANNEAU exactly once and then to
    SUIVRE_LIGNE, in which the update ends; it returns normally; its calls
    are those of the reaction to the first sign; and the update is the
    same as if the list held the first sign alone, so the remaining signs
    are ignored. *)
Theorem sign_list_enters_TRAITER_PANNEAU_once
    (mc_raises : nat -> bool) (cls : string) (rest : list SignInfo)
    (li : option LineInfo) (w : world) :
  (forall i, mc_raises i = false) ->
  state (self w) <> TRAITER_PANNEAU ->
  cls = "STOP"%string \/ cls = "GAUCHE"%string \/ cls = "DROITE"%string ->
  let update_with signs :=
    update_from_vision mc_raises
      (Some {| line_info := li; signs := Some signs |}) w in
  let run := update_with ({| sign_class := Some cls |} :: rest) in
  fst run = Returns tt /\
  assigned (snd run) = assigned w ++ [TRAITER_PANNEAU; SUIVRE_LIGNE] /\
  count_occ NavigationState_eq_dec
    (skipn (length (assigned w)) (assigned (snd run))) TRAITER_PANNEAU
    = 1%nat /\
  state (self (snd run)) = SUIVRE_LIGNE /\
  calls (snd run) =
    calls w ++
    (if String.eqb cls "STOP" then [stop; sleep 2]
     else [set_speed (min_speed (self w));
           set_steering (if String.eqb cls "GAUCHE" then -90 else 90);
           sleep 1; set_steering 0]) /\
  run = update_with [{| sign_class := Some cls |}].
Proof.
  intros Hok Hstate Hcls update_with run.
  assert (Hneq : NavigationState_eqb (state (self w)) TRAITER_PANNEAU
                 = false)
    by (destruct (state (self w)); try reflexivity; contradiction).
  assert (Hrun : forall signs_rest,
             update_with ({| sign_class := Some cls |} :: signs_rest) =
               (Returns tt,
                {| self := with_state (self w) SUIVRE_LIGNE;
                   calls :=
                     calls w ++
                     (if String.eqb cls "STOP" then [stop; sleep 2]
                      else [set_speed (min_speed (self w));
                            set_steering
                              (if String.eqb cls "GAUCHE" then -90 else 90);
                            sleep 1; set_steering 0]);
                   assigned :=
                     assigned w ++ [TRAITER_PANNEAU; SUIVRE_LIGNE] |})).
  { intro signs_rest. unfold update_with, update_from_vision. run_nav.
    cbn [signs]. rewrite Hneq. cbn [negb].
    unfold handle_sign, handle_stop_sign, handle_turn_sign. run_nav.
    destruct w as [me cs hist].
    destruct Hcls as [-> | [-> | ->]]; cbn; rewrite ?Hok; cbn;
      rewrite ?Hok; cbn; rewrite ?Hok; cbn;
      repeat rewrite <- app_assoc; reflexivity. }
  unfold run. rewrite (Hrun rest), (Hrun []). cbn [fst snd assigned self calls].
  split; [reflexivity|]. split; [reflexivity|].
  split; [|split; [reflexivity | split; reflexivity]].
  rewrite skipn_app, Nat.sub_diag, skipn_all. reflexivity.
Qed.

Lemma sign_list_enters_TRAITER_PANNEAU_once_witness :
  update_from_vision sound
    (vision_with_signs ["GAUCHE"%string; "STOP"%string]) fresh =
  update_from_vision sound (vision_with_signs ["GAUCHE"%string]) fresh /\
  assigned
    (snd (update_from_vision sound
            (vision_with_signs ["GAUCHE"%string; "STOP"%string]) fresh)) =
    [TRAITER_PANNEAU; SUIVRE_LIGNE].
Proof.
  destruct (sign_list_enters_TRAITER_PANNEAU_once sound "GAUCHE"
              [{| sign_class := Some "STOP"%string |}] (Some no_line) fresh)
    as [_ [Hassigned [_ [_ [_ Hsame]]]]].
  - intro i. reflexivity.
  - discriminate.
  - right; left. reflexivity.
  - split; [exact Hsame | exact Hassigned].
Defined.

End NavigatorProperties.

(** ** main.py: the snapshot channel *)

Section ChannelProperties.

Import Channel Examples.

Local Open Scope nat_scope.

(** Every snapshot pushed is either received or still pending, in the
    order of the pushes. *)
Lemma reachable_fifo (maxsize : N) (c : channel) :
  reachable maxsize c -> received c ++ pending c = pushed c.
Proof.
  induction 1 as [|c c' Hreach IH Hstep]; [reflexivity|].
  destruct Hstep as [f c c' Hvision | c].
  - destruct f as [| e | item]; cbn in Hvision.
    + injection Hvision as <-. exact IH.
    + injection Hvision as <-. exact IH.
    + unfold put in Hvision.
      destruct (N.of_nat (length (pending c)) <? maxsize)%N;
        [|discriminate].
      injection Hvision as <-. cbn. rewrite app_assoc, IH. reflexivity.
  - unfold navigation_receive, try_except, bind, get, ret. cbn beta.
    destruct (pending c) as [|item rest] eqn:E; cbn.
    + rewrite E. exact IH.
    + rewrite <- app_assoc. exact IH.
Qed.

(** The producer alone fills the queue up to its capacity. *)
Lemma reachable_backlog (maxsize : N) (item : snapshot) (n : nat) :
  (N.of_nat n <= maxsize)%N ->
  reachable maxsize
    {| pending := repeat item n; pushed := repeat item n; received := [] |}.
Proof.
  induction n as [|n IH]; intro Hn.
  - apply reachable_empty.
  - eapply reachable_step; [apply IH; lia|].
    apply (step_vision maxsize (captured item)).
    cbn. unfold put. cbn [pending pushed received].
    rewrite repeat_length.
    assert (Hlt : (N.of_nat n <? maxsize)%N = true)
      by (apply N.ltb_lt; lia).
    rewrite Hlt. rewrite <- !repeat_cons. reflexivity.
Qed.

(** C9, as the code has it.  The queue built by [mp.Queue()] is a FIFO
    queue bounded only by its capacity: at every reachable state the
    snapshots received followed by those pending are the snapshots pushed,
    in their order; a push on a queue that is not full appends the snapshot
    and keeps those already pending; a reception takes the oldest pending
    snapshot; and for every n up to the capacity a state with n pending
    snapshots is reachable. *)
Theorem vision_queue_is_fifo (maxsize : N) :
  (forall c, reachable maxsize c -> received c ++ pending c = pushed c) /\
  (forall c item c',
     put maxsize item c = Some c' -> pending c' = pending c ++ [item]) /\
  (forall c item c',
     navigation_receive c = (Returns (Some item), c') ->
     pending c = item :: pending c') /\
  (forall n, (N.of_nat n <= maxsize)%N ->
     exists c, reachable maxsize c /\ length (pending c) = n).
Proof.
  split; [|split; [|split]].
  - apply reachable_fifo.
  - intros c item c' Hput. unfold put in Hput.
    destruct (N.of_nat (length (pending c)) <? maxsize)%N; [|discriminate].
    injection Hput as <-. reflexivity.
  - intros c item c'.
    unfold navigation_receive, try_except, bind, get, ret.
    destruct (pending c) as [|x rest]; cbn; intro H.
    + discriminate.
    + injection H as <- <-. reflexivity.
  - intros n Hn.
    exists {| pending := repeat (snapshot_at 0) n;
              pushed := repeat (snapshot_at 0) n; received := [] |}.
    split; [apply reachable_backlog; exact Hn | apply repeat_length].
Qed.

Lemma vision_queue_is_fifo_witness :
  exists c, reachable SEM_VALUE_MAX c /\ length (pending c) = 2.
Proof.
  destruct (vision_queue_is_fifo SEM_VALUE_MAX) as [_ [_ [_ H]]].
  apply (H 2). vm_compute. discriminate.
Defined.

(** C9 as stated fails after two pushes with no reception in between: two
    snapshots are pending, and the second push kept the first. *)
Lemma vision_queue_holds_two_snapshots_counterexample :
  ~ (forall c, reachable SEM_VALUE_MAX c ->
       length (pending c) <= 1 /\
       (forall item c',
          put SEM_VALUE_MAX item c = Some c' -> pending c' = [item])).
Proof.
  intro H.
  destruct (H {| pending := repeat (snapshot_at 0) 2;
                 pushed := repeat (snapshot_at 0) 2; received := [] |})
    as [Hlen _].
  - apply reachable_backlog. vm_compute. discriminate.
  - cbn in Hlen. lia.
Qed.

End ChannelProperties.

(** * Further properties *)

(** ** How outcomes and states go through the combinators *)

Section Combinators.

Context {S : Type}.

Lemma bind_returns {A B : Type} (c : M S A) (k : A -> M S B)
    (s s' : S) (b : B) :
  bind c k s = (Returns b, s') ->
  exists a s1, c s = (Returns a, s1) /\ k a s1 = (Returns b, s').
Proof.
  unfold bind. destruct (c s) as [[a | e |] s1]; intro H;
    try discriminate.
  exists a, s1. split; [reflexivity | exact H].
Qed.

Lemma returns_ret {A : Type} (a : A) : returns (@ret S A a).
Proof. intro s. exists a. reflexivity. Qed.

Lemma halts_ret {A : Type} (a : A) : halts (@ret S A a).
Proof. intro s. discriminate. Qed.

Lemma halts_raise {A : Type} (e : exn) : halts (@raise S A e).
Proof. intro s. discriminate. Qed.

Lemma halts_bind {A B : Type} (c : M S A) (k : A -> M S B) :
  halts c -> (forall a, halts (k a)) -> halts (bind c k).
Proof.
  intros Hc Hk s. unfold bind. specialize (Hc s).
  destruct (c s) as [[a | e |] s1]; cbn in *.
  - apply Hk.
  - discriminate.
  - contradiction.
Qed.

Lemma halts_try_except {A : Type} (body : M S A) (handler : exn -> M S A) :
  halts body -> (forall e, halts (handler e)) ->
  halts (try_except body handler).
Proof.
  intros Hb Hh s. unfold try_except. specialize (Hb s).
  destruct (body s) as [[a | e |] s1]; cbn in *.
  - discriminate.
  - apply Hh.
  - contradiction.
Qed.

(** A [try] whose body halts and whose handler returns, returns. *)
Lemma returns_try_except {A : Type}
    (body : M S A) (handler : exn -> M S A) :
  halts body -> (forall e, returns (handler e)) ->
  returns (try_except body handler).
Proof.
  intros Hb Hh s. unfold try_except. specialize (Hb s).
  destruct (body s) as [[a | e |] s1]; cbn in *.
  - exists a. reflexivity.
  - apply Hh.
  - contradiction.
Qed.

Lemma returns_halts {A : Type} (c : M S A) : returns c -> halts c.
Proof.
  intros H s. destruct (H s) as [a Ha]. rewrite Ha. discriminate.
Qed.

Section Keeps.

Variable R : S -> S -> Prop.
Hypothesis R_refl : forall s, R s s.
Hypothesis R_trans : forall s1 s2 s3, R s1 s2 -> R s2 s3 -> R s1 s3.

Lemma keeps_ret {A : Type} (a : A) : keeps R (@ret S A a).
Proof. intro s. apply R_refl. Qed.

Lemma keeps_raise {A : Type} (e : exn) : keeps R (@raise S A e).
Proof. intro s. apply R_refl. Qed.

Lemma keeps_out_of_fuel {A : Type} : keeps R (@out_of_fuel S A).
Proof. intro s. apply R_refl. Qed.

Lemma keeps_bind {A B : Type} (c : M S A) (k : A -> M S B) :
  keeps R c -> (forall a, keeps R (k a)) -> keeps R (bind c k).
Proof.
  intros Hc Hk s. unfold bind. specialize (Hc s).
  destruct (c s) as [[a | e |] s1]; cbn in *; try exact Hc.
  eapply R_trans; [exact Hc | apply Hk].
Qed.

Lemma keeps_try_except {A : Type}
    (body : M S A) (handler : exn -> M S A) :
  keeps R body -> (forall e, keeps R (handler e)) ->
  keeps R (try_except body handler).
Proof.
  intros Hb Hh s. unfold try_except. specialize (Hb s).
  destruct (body s) as [[a | e |] s1]; cbn in *; try exact Hb.
  eapply R_trans; [exact Hb | apply Hh].
Qed.

End Keeps.

End Combinators.

(** ** motor_control.py: what the controller does to the hardware *)

Section MotorProperties.

Import Motor Examples.

Local Open Scope Q_scope.

Variable hw_raises : nat -> bool.

Ltac run_motor :=
  unfold try_except, bind, ret, raise, get_self, hw_do, time_sleep,
    set_current_speed, set_current_steering; cbn beta iota.

Lemma halts_hw_do (c : hw_call) : halts (hw_do hw_raises c).
Proof. intro w. unfold hw_do. cbn. destruct (hw_raises _); discriminate. Qed.

Lemma halts_set_speed (v : Q) : halts (set_speed hw_raises v).
Proof.
  unfold set_speed.
  apply halts_try_except; [|intro e; apply halts_ret].
  apply halts_bind; [intro w; discriminate|]. intro me.
  apply halts_bind; [|intros _ w; discriminate].
  destruct (Qle_bool _ _);
    (apply halts_bind; [apply halts_hw_do | intros _; apply halts_hw_do]).
Qed.

Lemma halts_set_steering (a : Q) : halts (set_steering hw_raises a).
Proof.
  unfold set_steering.
  apply halts_try_except; [|intro e; apply halts_ret].
  apply halts_bind; [intro w; discriminate|]. intro me.
  apply halts_bind; [apply halts_hw_do|]. intros _.
  apply halts_bind; [intro w; discriminate|]. intros _.
  apply halts_bind; [intro w; discriminate|]. intro me'.
  destruct (negb _); [|apply halts_ret].
  destruct (Qltb _ _);
    (apply halts_bind; [apply halts_hw_do | intros _; apply halts_hw_do]).
Qed.

Lemma returns_set_speed (v : Q) : returns (set_speed hw_raises v).
Proof.
  unfold set_speed. apply returns_try_except; [|intro e; apply returns_ret].
  pose proof (halts_set_speed v) as H. unfold set_speed in H.
  intro w. specialize (H w). unfold try_except in H |- *.
  destruct (bind _ _ w) as [[a | e |] w']; cbn in *; try discriminate.
  contradiction.
Qed.

Lemma returns_set_steering (a : Q) : returns (set_steering hw_raises a).
Proof.
  unfold set_steering.
  apply returns_try_except; [|intro e; apply returns_ret].
  pose proof (halts_set_steering a) as H. unfold set_steering in H.
  intro w. specialize (H w). unfold try_except in H |- *.
  destruct (bind _ _ w) as [[x | e |] w']; cbn in *; try discriminate.
  contradiction.
Qed.

Lemma returns_emergency_stop : returns (emergency_stop hw_raises).
Proof.
  unfold emergency_stop.
  apply returns_try_except; [|intro e; apply returns_ret].
  apply halts_bind; [apply halts_hw_do|]. intros _.
  apply halts_bind; intros; intro w; discriminate.
Qed.

(** Four methods of MotorController let no exception out: set_speed,
    set_steering and emergency_stop return normally whatever the hardware
    raises, and stop never ends with an exception.  (The constructor
    raises again what it caught, and is not among them.) *)
Theorem motor_controller_lets_no_exception_out :
  (forall v, returns (set_speed hw_raises v)) /\
  (forall a, returns (set_steering hw_raises a)) /\
  returns (emergency_stop hw_raises) /\
  (forall fuel w e, fst (stop hw_raises fuel w) <> Raises e).
Proof.
  split; [exact returns_set_speed|].
  split; [exact returns_set_steering|].
  split; [exact returns_emergency_stop|].
  intros fuel w e. unfold stop, try_except.
  destruct (bind _ _ w) as [[x | e' |] w']; cbn; try discriminate.
  destruct (returns_emergency_stop w') as [u Hu]. rewrite Hu. discriminate.
Qed.

Lemma limits_kept_refl (w : world) : limits_kept w w.
Proof. unfold limits_kept. intuition. Qed.

Lemma limits_kept_trans (w1 w2 w3 : world) :
  limits_kept w1 w2 -> limits_kept w2 w3 -> limits_kept w1 w3.
Proof.
  unfold limits_kept. intros [A1 [B1 [C1 D1]]] [A2 [B2 [C2 D2]]].
  split; [congruence|]. split; [congruence|]. split; [congruence|]. auto.
Qed.

(** The clamp of set_speed and set_steering stays between the limits. *)
Lemma clamp_within (v m : Q) :
  - m <= m -> - m <= py_max (py_min v m) (- m) <= m.
Proof.
  intro Hm. unfold py_max, py_min.
  destruct (Qltb m v) eqn:E1.
  - destruct (Qltb m (- m)) eqn:E2.
    + apply Qltb_lt in E2. split; [apply Qle_refl | exact Hm].
    + split; [exact Hm | apply Qle_refl].
  - apply Qltb_ge in E1.
    destruct (Qltb v (- m)) eqn:E2.
    + split; [apply Qle_refl | exact Hm].
    + apply Qltb_ge in E2. split; assumption.
Qed.

(** A value between the limits is its own clamp. *)
Lemma clamp_id (v m : Q) :
  - m <= v <= m -> py_max (py_min v m) (- m) = v.
Proof.
  intros [Hlo Hhi]. unfold py_max, py_min.
  rewrite (proj2 (Qltb_ge m v) Hhi).
  rewrite (proj2 (Qltb_ge v (- m)) Hlo). reflexivity.
Qed.

Lemma keeps_limits_hw_do (c : hw_call) :
  keeps limits_kept (hw_do hw_raises c).
Proof. intro w. unfold hw_do, limits_kept. cbn. intuition. Qed.

Lemma keeps_limits_set_speed (v : Q) :
  keeps limits_kept (set_speed hw_raises v).
Proof.
  intro w. unfold set_speed. run_motor.
  set (c := py_max (py_min v (max_speed (self w))) (- max_speed (self w))).
  assert (Hc : speed_within_limits (self w) ->
               - max_speed (self w) <= c <= max_speed (self w)).
  { intros [Hlo Hhi]. apply clamp_within. eapply Qle_trans; eassumption. }
  destruct (Qle_bool 0 c);
    repeat match goal with
           | |- context [hw_raises ?i] => destruct (hw_raises i); cbn
           end;
    unfold limits_kept, speed_within_limits in *; cbn; intuition.
Qed.

Lemma keeps_limits_set_steering (a : Q) :
  keeps limits_kept (set_steering hw_raises a).
Proof.
  intro w. unfold set_steering. run_motor.
  assert (Hk : forall mc cs,
             current_speed mc = current_speed (self w) ->
             max_speed mc = max_speed (self w) ->
             min_speed mc = min_speed (self w) ->
             max_steering mc = max_steering (self w) ->
             limits_kept w {| self := mc; calls := cs |}).
  { intros mc cs H1 H2 H3 H4.
    unfold limits_kept, speed_within_limits. cbn.
    rewrite H1, H2. intuition. }
  destruct (hw_raises (length (calls w))); cbn;
    [apply Hk; reflexivity|].
  destruct (negb _); cbn; [|apply Hk; reflexivity].
  destruct (Qltb 0 _);
    repeat match goal with
           | |- context [hw_raises ?i] => destruct (hw_raises i); cbn
           end;
    apply Hk; reflexivity.
Qed.

Lemma keeps_limits_zero_speed :
  keeps limits_kept (set_current_speed 0).
Proof.
  intro w. unfold set_current_speed, limits_kept. cbn.
  split; [reflexivity|]. split; [reflexivity|]. split; [reflexivity|].
  intros [Hlo Hhi]. unfold speed_within_limits. cbn.
  assert (H : - max_speed (self w) <= max_speed (self w))
    by (eapply Qle_trans; eassumption).
  split; lra.
Qed.

Lemma keeps_limits_emergency_stop :
  keeps limits_kept (emergency_stop hw_raises).
Proof.
  unfold emergency_stop.
  apply keeps_try_except;
    [exact limits_kept_trans | | intro e; apply keeps_ret;
                                 exact limits_kept_refl].
  apply keeps_bind; [exact limits_kept_trans | apply keeps_limits_hw_do|].
  intros _.
  apply keeps_bind; [exact limits_kept_trans | apply keeps_limits_zero_speed|].
  intros _ w. unfold set_current_steering, limits_kept. cbn. intuition.
Qed.

Lemma keeps_limits_stop_ramp (fuel : nat) :
  keeps limits_kept (stop_ramp hw_raises fuel).
Proof.
  induction fuel as [|fuel IH]; cbn [stop_ramp].
  - apply keeps_out_of_fuel. exact limits_kept_refl.
  - apply keeps_bind; [exact limits_kept_trans | |].
    + intro w. apply limits_kept_refl.
    + intro me. destruct (Qltb 5 _);
        [|apply keeps_ret; exact limits_kept_refl].
      apply keeps_bind;
        [exact limits_kept_trans | apply keeps_limits_set_speed|].
      intros _.
      apply keeps_bind; [exact limits_kept_trans | | intros _; exact IH].
      intro w. unfold time_sleep, limits_kept. cbn. intuition.
Qed.

(** Whatever the hardware raises, each method of MotorController leaves
    max_speed, min_speed and max_steering as they were, and a recorded
    speed that was between -max_speed and max_speed is still so after the
    call. *)
Theorem motor_controller_keeps_speed_within_limits :
  (forall v, keeps limits_kept (set_speed hw_raises v)) /\
  (forall a, keeps limits_kept (set_steering hw_raises a)) /\
  keeps limits_kept (emergency_stop hw_raises) /\
  (forall fuel, keeps limits_kept (stop hw_raises fuel)).
Proof.
  split; [exact keeps_limits_set_speed|].
  split; [exact keeps_limits_set_steering|].
  split; [exact keeps_limits_emergency_stop|].
  intro fuel. unfold stop.
  apply keeps_try_except;
    [exact limits_kept_trans | | intro e; exact keeps_limits_emergency_stop].
  apply keeps_bind;
    [exact limits_kept_trans | apply keeps_limits_stop_ramp|]. intros _.
  apply keeps_bind; [exact limits_kept_trans | apply keeps_limits_hw_do|].
  intros _.
  apply keeps_bind;
    [exact limits_kept_trans | apply keeps_limits_set_steering|].
  intros _. apply keeps_limits_zero_speed.
Qed.

Ltac hw_succeeds H :=
  unfold reliable in H;
  repeat first [rewrite H | progress cbn beta iota].

Lemma set_speed_reliable (v : Q) (w : world) :
  reliable hw_raises ->
  let c := py_max (py_min v (max_speed (self w))) (- max_speed (self w)) in
  set_speed hw_raises v w =
    (Returns tt,
     {| self := with_current_speed (self w) c;
        calls := calls w ++ [set_motor_speed 1 c; set_motor_speed 2 (- c)] |}).
Proof.
  intros Hrel c. unfold set_speed. run_motor. fold c.
  destruct (Qle_bool 0 c); hw_succeeds Hrel; cbn;
    rewrite <- app_assoc; reflexivity.
Qed.

(** On hardware that does not raise, set_speed commands motor 1 with the
    requested speed clamped between -max_speed and max_speed and motor 2
    with its opposite, and records the clamped speed: a request within
    the limits is applied as it is, one above max_speed becomes max_speed,
    one below -max_speed becomes -max_speed. *)
Theorem set_speed_clamps (v : Q) (w : world) :
  reliable hw_raises ->
  0 <= max_speed (self w) ->
  exists c : Q,
    set_speed hw_raises v w =
      (Returns tt,
       {| self := with_current_speed (self w) c;
          calls := calls w ++
                   [set_motor_speed 1 c; set_motor_speed 2 (- c)] |}) /\
    - max_speed (self w) <= c <= max_speed (self w) /\
    (- max_speed (self w) <= v <= max_speed (self w) -> c = v) /\
    (max_speed (self w) < v -> c = max_speed (self w)) /\
    (v < - max_speed (self w) -> c = - max_speed (self w)).
Proof.
  intros Hrel Hm.
  assert (Hmm : - max_speed (self w) <= max_speed (self w)) by lra.
  eexists. split; [apply set_speed_reliable; exact Hrel|].
  split; [apply clamp_within; exact Hmm|].
  split; [apply clamp_id|]. unfold py_max, py_min. split.
  - intro Hv. rewrite (proj2 (Qltb_lt _ _) Hv).
    rewrite (proj2 (Qltb_ge _ _) Hmm). reflexivity.
  - intro Hv.
    assert (Hv' : v <= max_speed (self w)) by lra.
    rewrite (proj2 (Qltb_ge _ _) Hv').
    rewrite (proj2 (Qltb_lt _ _) Hv). reflexivity.
Qed.

Lemma set_speed_first_call_raises (v : Q) (w : world) :
  hw_raises (length (calls w)) = true ->
  set_speed hw_raises v w =
    (Returns tt,
     {| self := self w;
        calls := calls w ++
                 [set_motor_speed 1
                    (py_max (py_min v (max_speed (self w)))
                       (- max_speed (self w)))] |}).
Proof.
  intro H1. unfold set_speed. run_motor.
  destruct (Qle_bool 0 _); cbn; rewrite H1; reflexivity.
Qed.

(** When a motor call raises, set_speed still returns normally and leaves
    the recorded speed as it was: if the call to motor 1 raises nothing
    more is tried, and if the call to motor 2 raises motor 1 has already
    received the new speed. *)
Theorem set_speed_failure_keeps_record (v : Q) (w : world) :
  let c := py_max (py_min v (max_speed (self w))) (- max_speed (self w)) in
  (hw_raises (length (calls w)) = true ->
   set_speed hw_raises v w =
     (Returns tt,
      {| self := self w; calls := calls w ++ [set_motor_speed 1 c] |})) /\
  (hw_raises (length (calls w)) = false ->
   hw_raises (S (length (calls w))) = true ->
   set_speed hw_raises v w =
     (Returns tt,
      {| self := self w;
         calls := calls w ++
                  [set_motor_speed 1 c; set_motor_speed 2 (- c)] |})).
Proof.
  intro c. split.
  - intro H1. apply set_speed_first_call_raises. exact H1.
  - intros H1 H2. unfold set_speed. run_motor. fold c.
    destruct (Qle_bool 0 c); cbn; rewrite H1; cbn; rewrite length_app;
      cbn [length]; rewrite Nat.add_1_r, H2; cbn; rewrite <- app_assoc;
      reflexivity.
Qed.

Lemma set_steering_reliable (angle : Q) (w : world) :
  reliable hw_raises ->
  let a :=
    py_max (py_min angle (max_steering (self w)))
      (- max_steering (self w)) in
  let scale := (100 - Qabs a) / 100 in
  set_steering hw_raises angle w =
    (Returns tt,
     {| self := with_current_steering (self w) a;
        calls :=
          calls w ++
          set_dir_servo_angle a ::
          (if Qeq_bool (current_speed (self w)) 0 then []
           else if Qltb 0 a then
             [set_motor_speed 1 (current_speed (self w));
              set_motor_speed 2 (- current_speed (self w) * scale)]
           else
             [set_motor_speed 1 (current_speed (self w) * scale);
              set_motor_speed 2 (- current_speed (self w))]) |}).
Proof.
  intros Hrel a scale. unfold set_steering. run_motor. fold a.
  hw_succeeds Hrel. cbn [self calls with_current_steering current_speed].
  destruct (Qeq_bool (current_speed (self w)) 0); cbn [negb];
    [reflexivity|].
  destruct (Qltb 0 a); hw_succeeds Hrel; fold scale;
    cbn [self calls]; repeat rewrite <- app_assoc; reflexivity.
Qed.


Lemma ramp_reach_lower (n : nat) : 5 <= ramp_reach n.
Proof.
  induction n as [|n IH]; cbn [ramp_reach]; [apply Qle_refl | lra].
Qed.

Lemma ramp_reach_mono (n m : nat) :
  (n <= m)%nat -> ramp_reach n <= ramp_reach m.
Proof.
  induction 1 as [|m Hle IH]; [apply Qle_refl|].
  cbn [ramp_reach]. pose proof (ramp_reach_lower m). lra.
Qed.

Lemma stop_ramp_step (fuel : nat) (w : world) :
  stop_ramp hw_raises (S fuel) w =
    if Qltb 5 (Qabs (current_speed (self w))) then
      (set_speed hw_raises (current_speed (self w) * (8 # 10)) ;;
       time_sleep (1 # 10) ;;
       stop_ramp hw_raises fuel) w
    else (Returns tt, w).
Proof.
  cbn [stop_ramp]. unfold bind at 1, get_self. cbn beta iota.
  destruct (Qltb 5 _); reflexivity.
Qed.

(** The ramp of stop on hardware that does not raise: it ends with a
    recorded speed of absolute value at most 5, which is zero only if the
    speed was zero, and it does not call px.stop(). *)
Lemma stop_ramp_reliable :
  reliable hw_raises ->
  forall (n : nat) (w : world),
    speed_within_limits (self w) ->
    - ramp_reach n <= current_speed (self w) <= ramp_reach n ->
    exists (r : Q) (tr : list hw_call),
      stop_ramp hw_raises (S n) w =
        (Returns tt,
         {| self := with_current_speed (self w) r;
            calls := calls w ++ tr |}) /\
      Qabs r <= 5 /\
      (~ current_speed (self w) == 0 -> ~ r == 0) /\
      ~ In px_stop tr.
Proof.
  intros Hrel n.
  induction n as [|n IH]; intros w Hlim Hreach; rewrite stop_ramp_step.
  - assert (Hsmall : Qltb 5 (Qabs (current_speed (self w))) = false).
    { apply Qltb_ge. apply Qabs_Qle_condition. exact Hreach. }
    rewrite Hsmall. exists (current_speed (self w)), [].
    split; [|split; [|split]].
    + destruct w as [[ms mn mst cs cst] tr]. cbn.
      rewrite app_nil_r. reflexivity.
    + apply Qltb_ge. exact Hsmall.
    + auto.
    + intros [].
  - destruct (Qltb 5 (Qabs (current_speed (self w)))) eqn:Hbig.
    + set (v := current_speed (self w) * (8 # 10)).
      assert (Hv : - max_speed (self w) <= v <= max_speed (self w)).
      { destruct Hlim as [Hlo Hhi]. unfold v. split; lra. }
      unfold bind at 1.
      rewrite (set_speed_reliable v w Hrel). cbv zeta.
      rewrite (clamp_id v _ Hv).
      unfold bind at 1, time_sleep. cbn beta iota. cbn [self calls].
      match goal with
      | |- context [stop_ramp hw_raises (S n) ?w1] =>
          destruct (IH w1) as [r [tr [Hrun [Hr [Hnz Hstop]]]]]
      end.
      * unfold speed_within_limits. cbn. exact Hv.
      * cbn. cbn [ramp_reach] in Hreach. unfold v. split; lra.
      * exists r, ([set_motor_speed 1 v; set_motor_speed 2 (- v);
                    sleep (1 # 10)] ++ tr).
        split; [|split; [|split]].
        -- rewrite Hrun. cbn. repeat rewrite <- app_assoc. reflexivity.
        -- exact Hr.
        -- intro H0. apply Hnz. cbn. unfold v. intro E. apply H0. lra.
        -- intro Hin. apply in_app_or in Hin.
           destruct Hin as [Hin | Hin]; [|exact (Hstop Hin)].
           cbn in Hin. intuition discriminate.
    + exists (current_speed (self w)), [].
      split; [|split; [|split]].
      * destruct w as [[ms mn mst cs cst] tr]. cbn.
        rewrite app_nil_r. reflexivity.
      * apply Qltb_ge. exact Hbig.
      * auto.
      * intros [].
Qed.

(** stop on hardware that does not raise, from a speed within limits of
    at most 50: the ramp, then px.stop(), the servo to 0, and, when the
    speed left by the ramp is not zero, the two motors at that speed. *)
Lemma stop_reliable (fuel : nat) (w : world) :
  reliable hw_raises ->
  speed_within_limits (self w) ->
  max_speed (self w) <= 50 ->
  0 <= max_steering (self w) ->
  (12 <= fuel)%nat ->
  exists (r : Q) (tr : list hw_call),
    Qabs r <= 5 /\
    (~ current_speed (self w) == 0 -> ~ r == 0) /\
    ~ In px_stop tr /\
    stop hw_raises fuel w =
      (Returns tt,
       {| self :=
            with_current_speed
              (with_current_steering (with_current_speed (self w) r) 0) 0;
          calls :=
            calls w ++ tr ++
            px_stop :: set_dir_servo_angle 0 ::
            (if Qeq_bool r 0 then []
             else [set_motor_speed 1 (r * ((100 - Qabs 0) / 100));
                   set_motor_speed 2 (- r)]) |}).
Proof.
  intros Hrel Hlim Hmax Hsteer Hfuel.
  destruct fuel as [|n]; [lia|].
  assert (Hreach : - ramp_reach n <= current_speed (self w)
                   <= ramp_reach n).
  { assert (H11 : ramp_reach 11 <= ramp_reach n)
      by (apply ramp_reach_mono; lia).
    assert (H50 : 50 <= ramp_reach 11) by (vm_compute; discriminate).
    destruct Hlim as [Hlo Hhi]. split; lra. }
  destruct (stop_ramp_reliable Hrel n w Hlim Hreach)
    as [r [tr [Hrun [Hr [Hnz Hstop]]]]].
  exists r, tr.
  split; [exact Hr|]. split; [exact Hnz|]. split; [exact Hstop|].
  unfold stop, try_except. unfold bind at 1. rewrite Hrun.
  unfold bind at 1, hw_do. hw_succeeds Hrel.
  unfold bind at 1.
  rewrite (set_steering_reliable 0 _ Hrel). cbv zeta.
  cbn [self calls with_current_speed max_steering current_speed].
  rewrite (clamp_id 0 (max_steering (self w))) by (split; lra).
  assert (H00 : Qltb 0 0 = false) by reflexivity. rewrite H00.
  unfold set_current_speed. cbn [self calls].
  destruct (Qeq_bool r 0); repeat rewrite <- app_assoc; reflexivity.
Qed.

(** On hardware that does not raise, stop called at a speed within the
    limits of a controller whose max_speed is at most 50 returns after at
    most eleven passes of its ramp (twelve units of fuel suffice), with
    the recorded speed and the recorded steering both at 0. *)
Theorem stop_returns_with_zero_record (fuel : nat) (w : world) :
  reliable hw_raises ->
  speed_within_limits (self w) ->
  max_speed (self w) <= 50 ->
  0 <= max_steering (self w) ->
  (12 <= fuel)%nat ->
  exists w' : world,
    stop hw_raises fuel w = (Returns tt, w') /\
    current_speed (self w') = 0 /\
    current_steering (self w') = 0 /\
    max_speed (self w') = max_speed (self w).
Proof.
  intros Hrel Hlim Hmax Hsteer Hfuel.
  destruct (stop_reliable fuel w Hrel Hlim Hmax Hsteer Hfuel)
    as [r [tr [_ [_ [_ Hrun]]]]].
  eexists. split; [exact Hrun|]. repeat split.
Qed.

(** On hardware that does not raise, stop called at a speed that is not
    zero ends, after px.stop() and the reset of the servo, by commanding
    the two motors again with the speed r left by the ramp: r is not
    zero, is at most 5 in absolute value, and these two commands are the
    last calls made. *)
Theorem stop_commands_motors_after_px_stop (fuel : nat) (w : world) :
  reliable hw_raises ->
  speed_within_limits (self w) ->
  max_speed (self w) <= 50 ->
  0 <= max_steering (self w) ->
  (12 <= fuel)%nat ->
  ~ current_speed (self w) == 0 ->
  exists (r : Q) (tr : list hw_call),
    ~ r == 0 /\ Qabs r <= 5 /\ ~ In px_stop tr /\
    calls (snd (stop hw_raises fuel w)) =
      calls w ++ tr ++
      [px_stop; set_dir_servo_angle 0;
       set_motor_speed 1 (r * ((100 - Qabs 0) / 100));
       set_motor_speed 2 (- r)].
Proof.
  intros Hrel Hlim Hmax Hsteer Hfuel Hnz.
  destruct (stop_reliable fuel w Hrel Hlim Hmax Hsteer Hfuel)
    as [r [tr [Hr [Hr0 [Hstop Hrun]]]]].
  exists r, tr. specialize (Hr0 Hnz).
  split; [exact Hr0|]. split; [exact Hr|]. split; [exact Hstop|].
  rewrite Hrun. cbn [snd calls].
  destruct (Qeq_bool r 0) eqn:Er; [|reflexivity].
  apply Qeq_bool_iff in Er. contradiction.
Qed.

(** While a speed above 5 in absolute value is recorded and every call
    to the hardware raises, the ramp of stop makes no progress: set_speed
    swallows the exception and leaves the recorded speed as it was, so
    stop runs out of any amount of fuel, never calls px.stop() and leaves
    the controller's attributes unchanged. *)
Theorem stop_never_returns_on_broken_hardware (fuel : nat) (w : world) :
  (forall i, hw_raises i = true) ->
  5 < Qabs (current_speed (self w)) ->
  exists tr : list hw_call,
    stop hw_raises fuel w =
      (OutOfFuel, {| self := self w; calls := calls w ++ tr |}) /\
    ~ In px_stop tr.
Proof.
  intros Hbroken Hbig.
  assert (Hramp : forall n w0,
             5 < Qabs (current_speed (self w0)) ->
             exists tr,
               stop_ramp hw_raises n w0 =
                 (OutOfFuel, {| self := self w0; calls := calls w0 ++ tr |})
               /\ ~ In px_stop tr).
  { induction n as [|n IH]; intros w0 Hb.
    - exists []. split; [|intros []].
      cbn. unfold out_of_fuel. destruct w0 as [me tr]. cbn.
      rewrite app_nil_r. reflexivity.
    - rewrite stop_ramp_step. rewrite (proj2 (Qltb_lt _ _) Hb).
      unfold bind at 1.
      rewrite (set_speed_first_call_raises _ w0 (Hbroken _)).
      set (c := py_max _ _).
      unfold bind at 1, time_sleep. cbn beta iota. cbn [self calls].
      match goal with
      | |- context [stop_ramp hw_raises n ?w1] =>
          destruct (IH w1 Hb) as [tr [Hrun Hstop]]
      end.
      exists ([set_motor_speed 1 c; sleep (1 # 10)] ++ tr).
      split.
      + rewrite Hrun. cbn. repeat rewrite <- app_assoc. reflexivity.
      + intro Hin. apply in_app_or in Hin.
        destruct Hin as [Hin | Hin]; [|exact (Hstop Hin)].
        cbn in Hin. intuition discriminate. }
  destruct (Hramp fuel w Hbig) as [tr [Hrun Hstop]].
  exists tr. split; [|exact Hstop].
  unfold stop, try_except. unfold bind at 1. rewrite Hrun. reflexivity.
Qed.

End MotorProperties.

Section MotorRuns.

Import Motor Examples.

Local Open Scope Q_scope.

Lemma set_speed_clamps_witness :
  set_speed sound 70 (driving 20) =
    (Returns tt,
     {| self := with_current_speed init 50;
        calls := [set_motor_speed 1 50; set_motor_speed 2 (- (50))] |}).
Proof.
  destruct (set_speed_clamps sound 70 (driving 20)) as [c [Hrun [_ [_ [Hhigh _]]]]].
  - intro i. reflexivity.
  - vm_compute. discriminate.
  - rewrite Hrun, Hhigh by reflexivity. reflexivity.
Defined.

Lemma set_speed_failure_keeps_record_witness :
  set_speed (fails_at 1) 70 (driving 20) =
    (Returns tt,
     {| self := with_current_speed init 20;
        calls := [set_motor_speed 1 50; set_motor_speed 2 (- (50))] |}).
Proof.
  destruct (set_speed_failure_keeps_record (fails_at 1) 70 (driving 20))
    as [_ H].
  rewrite H by reflexivity. reflexivity.
Defined.


Lemma stop_returns_with_zero_record_witness :
  exists w' : world,
    stop sound 12 (driving 30) = (Returns tt, w') /\
    current_speed (self w') = 0.
Proof.
  destruct (stop_returns_with_zero_record sound 12 (driving 30))
    as [w' [Hrun [Hspeed _]]].
  - intro i. reflexivity.
  - split; vm_compute; discriminate.
  - vm_compute. discriminate.
  - vm_compute. discriminate.
  - lia.
  - exists w'. split; assumption.
Defined.

Lemma stop_commands_motors_after_px_stop_witness :
  exists (r : Q) (tr : list hw_call),
    ~ r == 0 /\
    calls (snd (stop sound 12 (driving 3))) =
      tr ++
      [px_stop; set_dir_servo_angle 0;
       set_motor_speed 1 (r * ((100 - Qabs 0) / 100));
       set_motor_speed 2 (- r)].
Proof.
  destruct (stop_commands_motors_after_px_stop sound 12 (driving 3))
    as [r [tr [Hr [_ [_ Hcalls]]]]].
  - intro i. reflexivity.
  - split; vm_compute; discriminate.
  - vm_compute. discriminate.
  - vm_compute. discriminate.
  - lia.
  - intro H. vm_compute in H. discriminate.
  - exists r, tr. split; [exact Hr | exact Hcalls].
Defined.

Lemma stop_never_returns_on_broken_hardware_witness :
  exists tr : list hw_call,
    stop broken 3 (driving 30) =
      (OutOfFuel, {| self := self (driving 30); calls := tr |}).
Proof.
  destruct (stop_never_returns_on_broken_hardware broken 3 (driving 30))
    as [tr [Hrun _]].
  - intro i. reflexivity.
  - reflexivity.
  - exists tr. exact Hrun.
Defined.

End MotorRuns.

(** ** navigator.py: the three methods of the navigation process *)

Section NavigatorMethods.

Import Nav Examples.

Local Open Scope Q_scope.

Variable mc_raises : nat -> bool.

Lemma halts_mc_do (c : mc_call) : halts (mc_do mc_raises c).
Proof. intro w. unfold mc_do. cbn. destruct (mc_raises _); discriminate. Qed.

Ltac halts_step :=
  match goal with
  | |- halts (try_except _ _) => apply halts_try_except
  | |- halts (bind _ _) => apply halts_bind
  | |- halts (ret _) => apply halts_ret
  | |- halts (raise _) => apply halts_raise
  | |- halts (mc_do _ _) => apply halts_mc_do
  | |- halts (getitem ?v) => unfold getitem
  | |- halts (subscriptable ?v) => unfold subscriptable
  | |- halts (if ?b then _ else _) => destruct b
  | |- halts (match ?x with _ => _ end) => destruct x
  | |- forall _, _ => intro
  | |- halts _ => intro; cbn; discriminate
  end.

Lemma halts_follow_line (line_info : LineInfo) :
  halts (follow_line mc_raises line_info).
Proof. unfold follow_line. repeat halts_step. Qed.

Lemma halts_handle_stop_sign : halts (handle_stop_sign mc_raises).
Proof. unfold handle_stop_sign. repeat halts_step. Qed.

Lemma halts_handle_turn_sign (angle : Q) :
  halts (handle_turn_sign mc_raises angle).
Proof. unfold handle_turn_sign. repeat halts_step. Qed.

Lemma halts_handle_sign (sign_info : SignInfo) :
  halts (handle_sign mc_raises sign_info).
Proof.
  unfold handle_sign.
  apply halts_try_except; [|repeat halts_step].
  apply halts_bind; [repeat halts_step|]. intros _.
  apply halts_bind; [repeat halts_step|]. intro cls.
  destruct (String.eqb cls "STOP"); [apply halts_handle_stop_sign|].
  destruct (String.eqb cls "GAUCHE"); [apply halts_handle_turn_sign|].
  destruct (String.eqb cls "DROITE"); [apply halts_handle_turn_sign|].
  apply halts_ret.
Qed.

(** None of update_from_vision, handle_command and update lets an
    exception out: whatever the vision data or the command holds and
    whatever the motor controller raises, each returns normally. *)
Theorem navigator_lets_no_exception_out :
  (forall vision_data, returns (update_from_vision mc_raises vision_data)) /\
  (forall command, returns (handle_command mc_raises command)) /\
  returns (update mc_raises).
Proof.
  split; [|split].
  - intro vision_data. unfold update_from_vision.
    apply returns_try_except; [|intro e; apply returns_ret].
    destruct vision_data as [vd|]; [|apply halts_ret].
    apply halts_bind; [repeat halts_step|]. intro me.
    destruct (match signs vd with Some l => l | None => [] end)
      as [|sign0 rest].
    + destruct (NavigationState_eqb _ _);
        [apply halts_follow_line | apply halts_ret].
    + destruct (negb _); [apply halts_handle_sign|].
      destruct (NavigationState_eqb _ _);
        [apply halts_follow_line | apply halts_ret].
  - intro command. unfold handle_command.
    apply returns_try_except; [|intro e; apply returns_ret].
    repeat halts_step.
  - unfold update.
    apply returns_try_except; [|intro e; apply returns_ret].
    repeat halts_step.
Qed.

Lemma nav_kept_refl (w : world) : nav_kept w w.
Proof. unfold nav_kept. intuition. Qed.

Lemma nav_kept_trans (w1 w2 w3 : world) :
  nav_kept w1 w2 -> nav_kept w2 w3 -> nav_kept w1 w3.
Proof.
  unfold nav_kept. intros [A1 [B1 [C1 D1]]] [A2 [B2 [C2 D2]]].
  split; [congruence|]. split; [congruence|]. split; [congruence|].
  destruct D2 as [D2 | [D2 | D2]]; [rewrite D2; exact D1 | auto | auto].
Qed.

Lemma self_kept_refl (w : world) : self_kept w w.
Proof. reflexivity. Qed.

Lemma self_kept_trans (w1 w2 w3 : world) :
  self_kept w1 w2 -> self_kept w2 w3 -> self_kept w1 w3.
Proof. unfold self_kept. congruence. Qed.

Ltac nav_kept_step :=
  match goal with
  | |- keeps nav_kept (try_except _ _) =>
      apply keeps_try_except; [exact nav_kept_trans | |]
  | |- keeps nav_kept (bind _ _) =>
      apply keeps_bind; [exact nav_kept_trans | |]
  | |- keeps nav_kept (ret _) => apply keeps_ret; exact nav_kept_refl
  | |- keeps nav_kept (raise _) => apply keeps_raise; exact nav_kept_refl
  | |- keeps nav_kept (getitem ?v) => unfold getitem
  | |- keeps nav_kept (subscriptable ?v) => unfold subscriptable
  | |- keeps nav_kept (if ?b then _ else _) => destruct b
  | |- keeps nav_kept (match ?x with _ => _ end) => destruct x
  | |- forall _, _ => intro
  | |- keeps nav_kept _ =>
      let w := fresh "w" in
      intro w; unfold nav_kept; cbn; intuition
  end.

Ltac self_kept_step :=
  match goal with
  | |- keeps self_kept (try_except _ _) =>
      apply keeps_try_except; [exact self_kept_trans | |]
  | |- keeps self_kept (bind _ _) =>
      apply keeps_bind; [exact self_kept_trans | |]
  | |- keeps self_kept (ret _) => apply keeps_ret; exact self_kept_refl
  | |- keeps self_kept (raise _) => apply keeps_raise; exact self_kept_refl
  | |- keeps self_kept (getitem ?v) => unfold getitem
  | |- keeps self_kept (if ?b then _ else _) => destruct b
  | |- keeps self_kept (match ?x with _ => _ end) => destruct x
  | |- forall _, _ => intro
  | |- keeps self_kept _ =>
      let w := fresh "w" in
      intro w; unfold self_kept; reflexivity
  end.

Lemma keeps_nav_follow_line (line_info : LineInfo) :
  keeps nav_kept (follow_line mc_raises line_info).
Proof. unfold follow_line. repeat nav_kept_step. Qed.

Lemma keeps_nav_handle_sign (sign_info : SignInfo) :
  keeps nav_kept (handle_sign mc_raises sign_info).
Proof.
  unfold handle_sign, handle_stop_sign, handle_turn_sign.
  repeat nav_kept_step.
Qed.

Lemma keeps_nav_update_from_vision (vision_data : option VisionData) :
  keeps nav_kept (update_from_vision mc_raises vision_data).
Proof.
  unfold update_from_vision.
  apply keeps_try_except; [exact nav_kept_trans | | repeat nav_kept_step].
  destruct vision_data as [vd|]; [|repeat nav_kept_step].
  apply keeps_bind; [exact nav_kept_trans | repeat nav_kept_step|].
  intro me.
  destruct (match signs vd with Some l => l | None => [] end)
    as [|sign0 rest].
  - destruct (NavigationState_eqb _ _);
      [apply keeps_nav_follow_line | repeat nav_kept_step].
  - destruct (negb _); [apply keeps_nav_handle_sign|].
    destruct (NavigationState_eqb _ _);
      [apply keeps_nav_follow_line | repeat nav_kept_step].
Qed.

Lemma keeps_self_handle_command (command : option Command) :
  keeps self_kept (handle_command mc_raises command).
Proof. unfold handle_command. repeat self_kept_step. Qed.

Lemma keeps_self_update : keeps self_kept (update mc_raises).
Proof. unfold update. repeat self_kept_step. Qed.

Lemma keeps_nav_run_method (m : method) :
  keeps nav_kept (run_method mc_raises m).
Proof.
  destruct m as [vision_data | command |]; cbn [run_method].
  - apply keeps_nav_update_from_vision.
  - intro w. pose proof (keeps_self_handle_command command w) as H.
    unfold self_kept in H. unfold nav_kept. rewrite H. intuition.
  - intro w. pose proof (keeps_self_update w) as H.
    unfold self_kept in H. unfold nav_kept. rewrite H. intuition.
Qed.

(** Whatever methods the navigation process calls, with whatever data and
    whatever the motor controller raises, a navigator whose state is
    SUIVRE_LIGNE or TRAITER_PANNEAU stays in one of these two states and
    keeps its three parameters: the states ATTENTE_COMMANDE and ARRET are
    never entered, so the call of update that follows issues nothing. *)
Theorem navigator_never_enters_ARRET (ms : list method) (w : world) :
  state (self w) = SUIVRE_LIGNE \/ state (self w) = TRAITER_PANNEAU ->
  let w' := run_methods mc_raises ms w in
  (state (self w') = SUIVRE_LIGNE \/ state (self w') = TRAITER_PANNEAU) /\
  base_speed (self w') = base_speed (self w) /\
  min_speed (self w') = min_speed (self w) /\
  max_steering (self w') = max_steering (self w) /\
  update mc_raises w' = (Returns tt, w').
Proof.
  revert w. induction ms as [|m ms IH]; intros w Hstate; cbn [run_methods].
  - cbv zeta. split; [exact Hstate|]. repeat split.
    unfold update, try_except, bind, get_self, ret. cbn.
    destruct Hstate as [-> | ->]; reflexivity.
  - pose proof (keeps_nav_run_method m w) as [A [B [C D]]].
    assert (Hstate' : state (self (snd (run_method mc_raises m w)))
                        = SUIVRE_LIGNE \/
                      state (self (snd (run_method mc_raises m w)))
                        = TRAITER_PANNEAU).
    { destruct D as [D | [D | D]]; [rewrite D; exact Hstate | auto | auto]. }
    specialize (IH _ Hstate'). cbv zeta in IH |- *.
    destruct IH as [I1 [I2 [I3 [I4 I5]]]].
    split; [exact I1|]. split; [congruence|]. split; [congruence|].
    split; [congruence | exact I5].
Qed.

(** TRAITER_PANNEAU is a state no method leaves: once the navigator is in
    it, whatever methods the navigation process calls and whatever they
    carry, the attributes of the navigator, its state included, stay as
    they are. *)
Theorem navigator_never_leaves_TRAITER_PANNEAU
    (ms : list method) (w : world) :
  state (self w) = TRAITER_PANNEAU ->
  self (run_methods mc_raises ms w) = self w.
Proof.
  revert w. induction ms as [|m ms IH]; intros w Hstate; cbn [run_methods];
    [reflexivity|].
  assert (Hself : self (snd (run_method mc_raises m w)) = self w).
  { destruct m as [vision_data | command |]; cbn [run_method].
    - rewrite (update_from_vision_while_handling_sign mc_raises
                 vision_data w Hstate). reflexivity.
    - apply keeps_self_handle_command.
    - apply keeps_self_update. }
  rewrite IH; [exact Hself | rewrite Hself; exact Hstate].
Qed.

Ltac run_nav :=
  unfold try_except, bind, ret, raise, lift, get_self, set_state, mc_do,
    time_sleep, getitem, subscriptable, set_last_line_pos; cbn beta iota.

(** When the line information reports a line at (cx, cy) with cx between
    0 and 640, and the two calls on the motor controller do not raise,
    follow_line calls set_steering with an angle between -max_steering and
    max_steering, then set_speed with a speed between min_speed and
    base_speed, and records (cx, cy) as the last line position; with the
    line at the centre, cx = 320, the angle is 0 and the speed is
    base_speed. *)
Theorem follow_line_steers_within_limits
    (line_info : LineInfo) (cx cy : Z) (w : world) :
  detected line_info = Some true ->
  position line_info = Some (Some (cx, cy)) ->
  mc_raises (length (calls w)) = false ->
  mc_raises (S (length (calls w))) = false ->
  (0 <= cx <= 640)%Z ->
  0 <= min_speed (self w) <= base_speed (self w) ->
  0 <= max_steering (self w) ->
  exists (a v : Q) (w' : world),
    follow_line mc_raises line_info w = (Returns tt, w') /\
    calls w' = calls w ++ [set_steering a; set_speed v] /\
    last_line_pos (self w') = Some (cx, cy) /\
    state (self w') = state (self w) /\
    - max_steering (self w) <= a <= max_steering (self w) /\
    min_speed (self w) <= v <= base_speed (self w) /\
    (cx = 320%Z -> a == 0 /\ v == base_speed (self w)).
Proof.
  intros Hdet Hpos H1 H2 [Hcx0 Hcx640] [Hmin Hbase] Hsteer.
  set (e := (inject_Z cx - 640 / 2) / (640 / 2)).
  assert (Ee : e == (inject_Z cx - 320) * (1 # 320)) by (unfold e; field).
  assert (Hx : 0 <= inject_Z cx <= 640).
  { split.
    - change 0 with (inject_Z 0). rewrite <- Zle_Qle. exact Hcx0.
    - change 640 with (inject_Z 640). rewrite <- Zle_Qle. exact Hcx640. }
  assert (He : - (1) <= e <= 1) by (rewrite Ee; split; lra).
  assert (Ht : 0 <= Qabs e <= 1).
  { split; [apply Qabs_nonneg | apply Qabs_Qle_condition; exact He]. }
  set (t := Qabs e) in *.
  set (speed0 := base_speed (self w) * (1 - t)).
  exists (- e * max_steering (self w)),
    (if Qltb speed0 (min_speed (self w)) then min_speed (self w)
     else speed0).
  eexists. split; [|split; [|split; [|split; [|split; [|split]]]]].
  - unfold follow_line. rewrite Hdet, Hpos. cbn [negb].
    do 3 run_nav. cbn [fst self calls assigned].
    fold e. fold t. fold speed0. rewrite H1. cbn beta iota.
    cbn [calls self]. rewrite length_app. cbn [length].
    rewrite Nat.add_1_r, H2. cbn beta iota. reflexivity.
  - cbn [calls]. rewrite <- app_assoc. reflexivity.
  - reflexivity.
  - reflexivity.
  - destruct He as [He1 He2]. split; nra.
  - destruct Ht as [Ht1 Ht2].
    destruct (Qltb speed0 (min_speed (self w))) eqn:E.
    + split; [apply Qle_refl | exact Hbase].
    + apply Qltb_ge in E. split; [exact E|]. unfold speed0. nra.
  - intro Hc. subst cx.
    assert (E0 : e == 0) by (rewrite Ee; reflexivity).
    assert (T0 : t == 0) by (unfold t; rewrite E0; reflexivity).
    assert (S0 : speed0 == base_speed (self w))
      by (unfold speed0; rewrite T0; ring).
    split; [rewrite E0; ring|].
    destruct (Qltb speed0 (min_speed (self w))) eqn:E; [|exact S0].
    apply Qltb_lt in E. rewrite S0 in E. lra.
Qed.

(** When the line information reports a line but holds no usable
    position (the key 'position' is absent, or its value is None),
    follow_line calls stop() and nothing else, and leaves the navigator
    as it was; if that call raises, the exception leaves follow_line. *)
Theorem follow_line_without_position_stops
    (line_info : LineInfo) (w : world) :
  detected line_info = Some true ->
  position line_info = None \/ position line_info = Some None ->
  follow_line mc_raises line_info w =
    (if mc_raises (length (calls w)) then Raises DeviceError
     else Returns tt,
     {| self := self w; calls := calls w ++ [stop];
        assigned := assigned w |}).
Proof.
  intros Hdet Hpos. unfold follow_line. rewrite Hdet.
  destruct Hpos as [-> | ->]; run_nav; reflexivity.
Qed.

(** A sign whose dict has no key 'class', received in a state other than
    TRAITER_PANNEAU: whatever the motor controller and the line
    information, update_from_vision makes no call on the motor controller
    (line following is skipped for this update), sets the state to
    TRAITER_PANNEAU and then to SUIVRE_LIGNE, and returns normally. *)
Theorem update_from_vision_sign_without_class
    (li : option LineInfo) (rest : list SignInfo) (w : world) :
  state (self w) <> TRAITER_PANNEAU ->
  update_from_vision mc_raises
    (Some {| line_info := li;
             signs := Some ({| sign_class := None |} :: rest) |}) w =
    (Returns tt,
     {| self := with_state (self w) SUIVRE_LIGNE;
        calls := calls w;
        assigned := assigned w ++ [TRAITER_PANNEAU; SUIVRE_LIGNE] |}).
Proof.
  intro Hstate.
  assert (Hneq : NavigationState_eqb (state (self w)) TRAITER_PANNEAU
                 = false)
    by (destruct (state (self w)); try reflexivity; contradiction).
  unfold update_from_vision. run_nav. cbn [signs]. rewrite Hneq. cbn [negb].
  unfold handle_sign. run_nav. cbn.
  rewrite <- app_assoc. reflexivity.
Qed.

(** handle_command leaves the navigator as it is and makes at most one
    call on the motor controller: set_speed(value) for the type 'speed',
    set_steering(value) for 'turn', stop() for 'stop'.  A 'speed' or
    'turn' command without the key 'value', a command of another type or
    without type, and an empty command make no call.  It returns normally
    even when the call raises. *)
Theorem handle_command_dispatch (command : option Command) (w : world) :
  exists cs : list mc_call,
    handle_command mc_raises command w =
      (Returns tt,
       {| self := self w; calls := calls w ++ cs;
          assigned := assigned w |}) /\
    (length cs <= 1)%nat /\
    (command = None -> cs = []) /\
    (forall cmd, command = Some cmd ->
       (cmd_type cmd = None -> cs = []) /\
       (forall t, cmd_type cmd = Some t ->
          (t = "speed"%string \/ t = "turn"%string ->
           cmd_value cmd = None -> cs = []) /\
          (t = "speed"%string -> forall v, cmd_value cmd = Some v ->
           cs = [set_speed v]) /\
          (t = "turn"%string -> forall v, cmd_value cmd = Some v ->
           cs = [set_steering v]) /\
          (t = "stop"%string -> cs = [stop]) /\
          (t <> "speed"%string -> t <> "turn"%string ->
           t <> "stop"%string -> cs = []))).
Proof.
  destruct w as [me cs0 hist].
  destruct command as [[ty val]|].
  2:{ exists []. cbn. rewrite app_nil_r.
      split; [reflexivity|]. split; [lia|]. split; [reflexivity|].
      intros cmd H. discriminate. }
  unfold handle_command, type_is. cbn [cmd_type cmd_value].
  destruct ty as [t|].
  2:{ exists []. cbn. rewrite app_nil_r.
      split; [reflexivity|]. split; [lia|]. split; [discriminate|].
      intros cmd H. injection H as <-. cbn. split; [reflexivity|].
      intros t Ht. discriminate. }
  destruct (String.eqb_spec t "speed") as [Es | Es];
    [|destruct (String.eqb_spec t "turn") as [Et | Et];
      [|destruct (String.eqb_spec t "stop") as [Ep | Ep]]].
  - destruct val as [v|].
    + exists [set_speed v]. run_nav. cbn.
      split; [destruct (mc_raises _); reflexivity|].
      split; [lia|]. split; [discriminate|].
      intros cmd H. injection H as <-. cbn. split; [discriminate|].
      intros t' Ht'. injection Ht' as <-. subst t.
      intuition (try discriminate; try congruence).
    + exists []. run_nav. cbn. rewrite app_nil_r.
      split; [reflexivity|]. split; [lia|]. split; [discriminate|].
      intros cmd H. injection H as <-. cbn. split; [discriminate|].
      intros t' Ht'. injection Ht' as <-. subst t.
      intuition (try discriminate; try congruence).
  - destruct val as [v|].
    + exists [set_steering v]. run_nav. cbn.
      split; [destruct (mc_raises _); reflexivity|].
      split; [lia|]. split; [discriminate|].
      intros cmd H. injection H as <-. cbn. split; [discriminate|].
      intros t' Ht'. injection Ht' as <-. subst t.
      intuition (try discriminate; try congruence).
    + exists []. run_nav. cbn. rewrite app_nil_r.
      split; [reflexivity|]. split; [lia|]. split; [discriminate|].
      intros cmd H. injection H as <-. cbn. split; [discriminate|].
      intros t' Ht'. injection Ht' as <-. subst t.
      intuition (try discriminate; try congruence).
  - exists [stop]. run_nav. cbn.
    split; [destruct (mc_raises _); reflexivity|].
    split; [lia|]. split; [discriminate|].
    intros cmd H. injection H as <-. cbn. split; [discriminate|].
    intros t' Ht'. injection Ht' as <-. subst t.
    intuition (try discriminate; try congruence).
  - exists []. run_nav. cbn. rewrite app_nil_r.
    split; [reflexivity|]. split; [lia|]. split; [discriminate|].
    intros cmd H. injection H as <-. cbn. split; [discriminate|].
    intros t' Ht'. injection Ht' as <-.
    intuition (try discriminate; try congruence).
Qed.

(** A sign reaction whose first call on the motor controller raises,
    started in a state other than TRAITER_PANNEAU.  For a stop sign the
    state stays TRAITER_PANNEAU and nothing more is called.  For a turn
    sign stop() is called, and the state comes back to SUIVRE_LIGNE
    exactly when that call to stop() raises as well; otherwise it stays
    TRAITER_PANNEAU. *)
Theorem failed_sign_reaction
    (cls : string) (rest : list SignInfo) (li : option LineInfo)
    (w : world) :
  state (self w) <> TRAITER_PANNEAU ->
  mc_raises (length (calls w)) = true ->
  let run :=
    update_from_vision mc_raises
      (Some {| line_info := li;
               signs := Some ({| sign_class := Some cls |} :: rest) |}) w in
  (cls = "STOP"%string ->
   run =
     (Returns tt,
      {| self := with_state (self w) TRAITER_PANNEAU;
         calls := calls w ++ [stop];
         assigned := assigned w ++ [TRAITER_PANNEAU] |})) /\
  (cls = "GAUCHE"%string \/ cls = "DROITE"%string ->
   run =
     (Returns tt,
      {| self :=
           with_state (self w)
             (if mc_raises (S (length (calls w))) then SUIVRE_LIGNE
              else TRAITER_PANNEAU);
         calls := calls w ++ [set_speed (min_speed (self w)); stop];
         assigned :=
           assigned w ++
           (if mc_raises (S (length (calls w)))
            then [TRAITER_PANNEAU; SUIVRE_LIGNE]
            else [TRAITER_PANNEAU]) |})).
Proof.
  intros Hstate Hfail run. subst run.
  assert (Hneq : NavigationState_eqb (state (self w)) TRAITER_PANNEAU
                 = false)
    by (destruct (state (self w)); try reflexivity; contradiction).
  unfold update_from_vision. run_nav. cbn [signs]. rewrite Hneq. cbn [negb].
  unfold handle_sign, handle_stop_sign, handle_turn_sign. run_nav.
  destruct w as [me cs hist]. cbn in Hfail.
  split.
  - intros ->. cbn. rewrite Hfail. cbn. reflexivity.
  - intros [-> | ->]; cbn; rewrite Hfail; cbn; rewrite length_app;
      cbn [length]; rewrite Nat.add_1_r;
      destruct (mc_raises (S (length cs))); cbn;
      repeat rewrite <- app_assoc; reflexivity.
Qed.

End NavigatorMethods.

Section NavigatorRuns.

Import Nav Examples.

Local Open Scope Q_scope.

Lemma follow_line_steers_within_limits_witness :
  exists (a v : Q) (w' : world),
    follow_line sound
      {| detected := Some true; position := Some (Some (400, 3)%Z) |}
      fresh = (Returns tt, w') /\
    calls w' = [set_steering a; set_speed v] /\
    - (30) <= a <= 30 /\ 15 <= v <= 30.
Proof.
  destruct (follow_line_steers_within_limits sound
              {| detected := Some true; position := Some (Some (400, 3)%Z) |}
              400 3 fresh)
    as [a [v [w' [Hrun [Hcalls [_ [_ [Ha [Hv _]]]]]]]]];
    try reflexivity.
  - split; lia.
  - split; vm_compute; discriminate.
  - vm_compute. discriminate.
  - exists a, v, w'. repeat split; try assumption; apply Ha || apply Hv.
Defined.

Lemma follow_line_without_position_stops_witness :
  follow_line sound {| detected := Some true; position := Some None |}
    fresh =
    (Returns tt, {| self := init; calls := [stop]; assigned := [] |}).
Proof.
  apply (follow_line_without_position_stops sound
           {| detected := Some true; position := Some None |} fresh).
  - reflexivity.
  - right. reflexivity.
Defined.

Lemma update_from_vision_sign_without_class_witness :
  update_from_vision sound
    (Some {| line_info := Some no_line;
             signs := Some [{| sign_class := None |}] |}) fresh =
    (Returns tt,
     {| self := with_state init SUIVRE_LIGNE;
        calls := [];
        assigned := [TRAITER_PANNEAU; SUIVRE_LIGNE] |}).
Proof.
  apply (update_from_vision_sign_without_class sound (Some no_line) []
           fresh).
  discriminate.
Defined.

Lemma update_from_vision_known_sign_witness :
  update_from_vision sound (vision_with_signs ["STOP"%string]) fresh =
    (Returns tt,
     {| self := with_state init SUIVRE_LIGNE;
        calls := [stop; sleep 2];
        assigned := [TRAITER_PANNEAU; SUIVRE_LIGNE] |}).
Proof.
  apply (update_from_vision_known_sign sound "STOP" [] (Some no_line)
           fresh).
  - intro i. reflexivity.
  - discriminate.
  - left. reflexivity.
Defined.

Lemma navigator_never_enters_ARRET_witness :
  let w' :=
    run_methods sound
      [call_update_from_vision (vision_with_signs ["CEDEZ"%string]);
       call_handle_command
         (Some {| cmd_type := Some "stop"%string; cmd_value := None |});
       call_update] fresh in
  (state (self w') = SUIVRE_LIGNE \/ state (self w') = TRAITER_PANNEAU) /\
  update sound w' = (Returns tt, w').
Proof.
  destruct (navigator_never_enters_ARRET sound
              [call_update_from_vision (vision_with_signs ["CEDEZ"%string]);
               call_handle_command
                 (Some {| cmd_type := Some "stop"%string;
                          cmd_value := None |});
               call_update] fresh) as [H1 [_ [_ [_ H2]]]].
  - left. reflexivity.
  - split; [exact H1 | exact H2].
Defined.

Lemma navigator_never_leaves_TRAITER_PANNEAU_witness :
  self (run_methods sound
          [call_update_from_vision (vision_with_signs ["STOP"%string]);
           call_update]
          {| self := with_state init TRAITER_PANNEAU; calls := [];
             assigned := [TRAITER_PANNEAU] |}) =
    with_state init TRAITER_PANNEAU.
Proof.
  apply (navigator_never_leaves_TRAITER_PANNEAU sound).
  reflexivity.
Defined.

Lemma failed_sign_reaction_witness :
  update_from_vision (fails_at 0) (vision_with_signs ["DROITE"%string])
    fresh =
    (Returns tt,
     {| self := with_state init TRAITER_PANNEAU;
        calls := [set_speed 15; stop];
        assigned := [TRAITER_PANNEAU] |}).
Proof.
  destruct (failed_sign_reaction (fails_at 0) "DROITE" [] (Some no_line)
              fresh) as [_ H].
  - discriminate.
  - reflexivity.
  - apply H. right. reflexivity.
Defined.

End NavigatorRuns.

(** ** main.py: further properties of the tick *)

Section MainTicks.

Import Main Examples.

Local Open Scope Q_scope.

Ltac run :=
  unfold try_except, bind, ret, raise, lift, out_of_fuel,
    px_read, px_do, time_sleep; cbn beta iota.

Ltac calls_succeed H :=
  unfold reliable in H;
  repeat first [rewrite H | progress cbn beta iota].


(** The state line_track returns.  When line_track returns, the arbiter
    has returned a distance d, and the state handed back is the last
    line state it was given when d is below the safe distance (the tick
    then ends with the calls of the arbiter) or when the sample read
    after the arbiter is classified 'stop'; otherwise it is the state of
    that sample, which differs from 'stop'.  So line_track never hands
    back 'stop' unless it was given 'stop'. *)
Theorem line_track_never_returns_stop
    (px : PicarxEnv) (fuel : nat) (last_line_state st : pystate)
    (tr tr' : trace) :
  line_track px fuel last_line_state tr = (Returns st, tr') ->
  exists (d : Q) (tr1 : trace),
    avoid_obstacles px tr = (Returns d, tr1) /\
    ((d < inject_Z SafeDistance /\ st = last_line_state /\ tr' = tr1) \/
     (inject_Z SafeDistance <= d /\
      sample_state px (length tr1) = Returns (Some "stop"%string) /\
      st = last_line_state) \/
     (inject_Z SafeDistance <= d /\
      sample_state px (length tr1) = Returns st /\
      st <> Some "stop"%string)) /\
    (last_line_state <> Some "stop"%string -> st <> Some "stop"%string).
Proof.
  intro Hrun.
  unfold line_track in Hrun.
  apply bind_returns in Hrun. destruct Hrun as [d [tr1 [Havoid Hrun]]].
  exists d, tr1. split; [exact Havoid|].
  destruct (Qltb d (inject_Z SafeDistance)) eqn:Ed.
  - unfold ret in Hrun. injection Hrun as <- <-.
    apply Qltb_lt in Ed. split; [left; repeat split; assumption | auto].
  - apply Qltb_ge in Ed.
    unfold line_track_follow in Hrun.
    apply bind_returns in Hrun. destruct Hrun as [vals [tr2 [Hread Hrun]]].
    apply bind_returns in Hrun. destruct Hrun as [gm [tr3 [Hstatus Hrun]]].
    assert (Hsample : sample_state px (length tr1) = Returns gm).
    { unfold px_read in Hread.
      destruct (px_raises px (length tr1)); [discriminate|].
      injection Hread as <- <-.
      rewrite get_status_pure in Hstatus.
      injection Hstatus as Hfst _. exact Hfst. }
    destruct (negb (pystate_eqb gm (Some "stop"%string))) eqn:E.
    + apply bind_returns in Hrun. destruct Hrun as [u [tr4 [_ Hrun]]].
      unfold ret in Hrun. injection Hrun as <- _.
      apply negb_true_iff in E. apply pystate_eqb_neq in E.
      split; [right; right; repeat split; assumption | intros _; exact E].
    + apply bind_returns in Hrun. destruct Hrun as [u [tr4 [_ Hrun]]].
      unfold ret in Hrun. injection Hrun as <- _.
      apply negb_false_iff in E. apply pystate_eqb_eq in E. subst gm.
      split; [right; left; repeat split; assumption | auto].
Qed.

(** Outside the eight readings of three bits: a line status with fewer
    than two entries raises IndexError; a status of two entries gives
    'forward' or 'right' when its second or first entry is 1 and raises
    IndexError otherwise; a status of three entries or more none of whose
    first three is 1, and which is not [0, 0, 0], gives None. *)
Theorem get_status_outside_three_bits
    (px : PicarxEnv) (val_list : list Z) (tr : trace) :
  let status := px_get_line_status px val_list in
  ((length status < 2)%nat ->
   get_status px val_list tr = (Raises IndexError, tr)) /\
  (forall l c, status = [l; c] ->
     get_status px val_list tr =
       (if (c =? 1)%Z then Returns (Some "forward"%string)
        else if (l =? 1)%Z then Returns (Some "right"%string)
        else Raises IndexError, tr)) /\
  (forall l c r rest, status = l :: c :: r :: rest ->
     l <> 1%Z -> c <> 1%Z -> r <> 1%Z -> status <> [0; 0; 0]%Z ->
     get_status px val_list tr = (Returns None, tr)).
Proof.
  intro status. unfold get_status. fold status.
  split; [|split].
  - intro Hlen.
    destruct status as [|x [|y rest]]; cbn in Hlen; try lia;
      cbn; try reflexivity.
    destruct (x =? 0)%Z; reflexivity.
  - intros l c ->. cbn.
    destruct ((l =? 0)%Z && ((c =? 0)%Z && false)) eqn:E.
    + rewrite !andb_false_r in E. discriminate.
    + run. destruct (c =? 1)%Z; [reflexivity|].
      destruct (l =? 1)%Z; reflexivity.
  - intros l c r rest Hst Hl Hc Hr Hne.
    assert (Hzero : list_Z_eqb status [0; 0; 0]%Z = false).
    { rewrite Hst. rewrite Hst in Hne. cbn.
      destruct rest as [|x rest'];
        [|rewrite !andb_false_r; reflexivity].
      rewrite andb_true_r.
      destruct (Z.eqb_spec l 0) as [-> |]; [|reflexivity].
      destruct (Z.eqb_spec c 0) as [-> |]; [|reflexivity].
      destruct (Z.eqb_spec r 0) as [-> |]; [|reflexivity].
      contradiction. }
    rewrite Hzero, Hst. run. cbn.
    apply Z.eqb_neq in Hl, Hc, Hr. rewrite Hl, Hc, Hr. reflexivity.
Qed.

(** A tick far from any obstacle in which no sensor sees the line, on
    hardware that does not raise: after the Safe directive of the arbiter
    and the sample classified 'stop', outHandle steers and backs according
    to the last line state and takes one more sample; as soon as that
    sample's state differs from the last line state (as it does while the
    line stays lost) the tick ends, with one unit of fuel, and returns the
    last line state unchanged. *)
Theorem line_track_lost_line_tick
    (px : PicarxEnv) (fuel : nat) (last_line_state st : pystate)
    (tr : trace) :
  let d := round2 (px_ultrasonic px (length tr)) in
  let again := (length tr + 4 + length (steer_calls last_line_state))%nat in
  reliable px ->
  inject_Z SafeDistance <= d <= 1000 ->
  sample_state px (length tr + 3) = Returns (Some "stop"%string) ->
  sample_state px again = Returns st ->
  st <> last_line_state ->
  line_track px (S fuel) last_line_state tr =
    (Returns last_line_state,
     tr ++ [ultrasonic_read; set_dir_servo_angle 0;
            forward AVOID_OBSTACLES_SPEED; get_grayscale_data] ++
     steer_calls last_line_state ++
     [get_grayscale_data; sleep (1 # 1000)]).
Proof.
  intros d again Hrel [Hsafe Hhi] Hlost Hagain Hneq.
  assert (Hvalid : 0 <= d <= 1000).
  { split; [|exact Hhi]. eapply Qle_trans; [|exact Hsafe].
    vm_compute. discriminate. }
  pose proof (avoid_obstacles_valid_reading px tr Hrel Hvalid) as Hrun.
  fold d in Hrun. unfold band_calls in Hrun.
  rewrite (proj2 (Qle_bool_iff _ _) Hsafe) in Hrun.
  unfold line_track. unfold bind at 1. rewrite Hrun.
  rewrite (proj2 (Qltb_ge _ _) Hsafe).
  set (tr1 := tr ++ [ultrasonic_read; set_dir_servo_angle 0;
                     forward AVOID_OBSTACLES_SPEED]).
  assert (Hlen1 : length tr1 = (length tr + 3)%nat)
    by (unfold tr1; rewrite length_app; reflexivity).
  unfold line_track_follow. unfold bind at 1, px_read.
  assert (Hok : px_raises px (length tr1) = false) by apply Hrel.
  rewrite Hok. unfold bind at 1.
  rewrite get_status_pure. rewrite Hlen1.
  fold (sample_state px (length tr + 3)). rewrite Hlost.
  cbn [fst negb pystate_eqb String.eqb Ascii.eqb Bool.eqb].
  unfold bind at 1, outHandle. unfold bind at 1.
  rewrite (outHandle_steer_calls px last_line_state _ Hrel).
  set (tr2 := (tr1 ++ [get_grayscale_data]) ++ steer_calls last_line_state).
  assert (Hlen2 : length tr2 = again).
  { unfold tr2, again. rewrite !length_app, Hlen1. cbn [length]. lia. }
  unfold bind at 1.
  rewrite (outHandle_loop_step px fuel last_line_state st tr2 Hrel)
    by (rewrite Hlen2; exact Hagain).
  rewrite (proj2 (pystate_eqb_neq _ _) Hneq). cbn [negb].
  unfold time_sleep, ret. unfold tr2, tr1.
  repeat rewrite <- app_assoc. reflexivity.
Qed.

End MainTicks.

Section MainRuns.

Import Main Examples.

Local Open Scope Q_scope.

Lemma line_track_never_returns_stop_witness :
  exists (d : Q) (tr1 : trace),
    avoid_obstacles px_on_line [] = (Returns d, tr1) /\
    sample_state px_on_line (length tr1) = Returns (Some "forward"%string).
Proof.
  destruct (line_track_never_returns_stop px_on_line 1
              (Some "left"%string) (Some "forward"%string) []
              [ultrasonic_read; set_dir_servo_angle 0;
               forward AVOID_OBSTACLES_SPEED; get_grayscale_data;
               set_dir_servo_angle 0; forward LINE_TRACK_SPEED])
    as [d [tr1 [Havoid [Hcases _]]]].
  - reflexivity.
  - exists d, tr1. split; [exact Havoid|].
    destruct Hcases as [[_ [Hst _]] | [[_ [_ Hst]] | [_ [Hsample _]]]].
    + discriminate Hst.
    + discriminate Hst.
    + exact Hsample.
Defined.

Lemma line_track_lost_line_tick_witness :
  line_track px_off_line 1 (Some "right"%string) [] =
    (Returns (Some "right"%string),
     [ultrasonic_read; set_dir_servo_angle 0;
      forward AVOID_OBSTACLES_SPEED; get_grayscale_data;
      set_dir_servo_angle 30; backward 10;
      get_grayscale_data; sleep (1 # 1000)]).
Proof.
  apply (line_track_lost_line_tick px_off_line 0 (Some "right"%string)
           (Some "stop"%string) []).
  - intro i. reflexivity.
  - split; vm_compute; discriminate.
  - reflexivity.
  - reflexivity.
  - discriminate.
Defined.

End MainRuns.
